(** * file-streaming: the HLS window and switch-over controller of src/ffmpeg.js

    A shallow embedding of the last revision of the module (the part that
    starts with [RENDITIONS] and ends with [class FileStreaming]):
    [readList], [writeMasterList], [class Emission] and [class FileStreaming];
    and of [class Emission] of the first revision the file keeps
    ([EmissionV1]).

    Conventions.
    - A JavaScript statement that can throw returns a [Completion]; the
      state reached before the throw is kept, as object mutations are.
    - Objects with identity ([Emission]) live in a store and are named by
      their address; the two Session references [_last] and [_current]
      hold addresses.
    - The file system is a finite map from path to content together with
      the set of watched paths; a path is the string [path.join] returns
      (the POSIX flavour of Node's path module). *)

From Stdlib Require Import ZArith NArith Ascii String List Bool Lia.
From Stdlib Require Import DecimalString DecimalN.
From stdpp Require Import gmap strings list.

Import ListNotations.
Local Open Scope string_scope.
Local Open Scope list_scope.

(** ** JavaScript values used by the module *)

Module JS.

(** Errors the module throws or lets escape. *)
Inductive Error :=
| TypeError (what : string)
| ReferenceError (name : string)
| ENOENT (path : string).

Inductive Completion (A : Type) :=
| Normal (a : A)
| Throw (e : Error).
Arguments Normal {A} a.
Arguments Throw {A} e.

Definition bind {A B} (c : Completion A) (k : A -> Completion B) : Completion B :=
  match c with
  | Normal a => k a
  | Throw e => Throw e
  end.

(** Numbers.  The module computes with two kinds of number only: the media
    sequence ([\d+] times 1) and the target duration ([Math.max] over the
    captured strings and 0).  The integers are represented exactly, every
    other double by [NaN]; the embedding is exact for integers below 2^53. *)
Inductive Number :=
| Num (z : Z)
| NaN.

(** [ToNumber] on a string of decimal digits, NaN elsewhere.  (ECMAScript
    also reads signs, fractions, exponents and surrounding white space;
    an EXT-X-TARGETDURATION value is a decimal integer.) *)
Definition digits_to_N (s : string) : option N :=
  match s with
  | EmptyString => None
  | _ => option_map N.of_uint (NilEmpty.uint_of_string s)
  end.

Definition ToNumber (s : string) : Number :=
  match digits_to_N s with
  | Some n => Num (Z.of_N n)
  | None => NaN
  end.

(** [Number::toString] for the represented values. *)
Definition N_to_string (n : N) : string := NilEmpty.string_of_uint (N.to_uint n).

Definition NumberToString (x : Number) : string :=
  match x with
  | Num z => if (z <? 0)%Z then "-" +:+ N_to_string (Z.abs_N z) else N_to_string (Z.to_N z)
  | NaN => "NaN"
  end.

(** [Math.max(a, b)]: NaN is contagious. *)
Definition max2 (a b : Number) : Number :=
  match a, b with
  | Num x, Num y => Num (Z.max x y)
  | _, _ => NaN
  end.

(** [Math.max(...xs)] over a non-empty argument list ending in [last]. *)
Definition Math_max (xs : list Number) (last : Number) : Number :=
  fold_right max2 last xs.

(** [a.split(sep)] for a non-empty separator: cut at every occurrence,
    left to right. *)
Fixpoint split_aux (sep : string) (skip : nat) (cur : string) (s : string) : list string :=
  match s with
  | EmptyString => [cur]
  | String c s' =>
      match skip with
      | S k => split_aux sep k cur s'
      | O =>
          if String.prefix sep s
          then cur :: split_aux sep (String.length sep - 1) EmptyString s'
          else split_aux sep 0 (cur +:+ String c EmptyString) s'
      end
  end.

Definition js_split (s sep : string) : list string := split_aux sep 0 EmptyString s.

(** [a.includes(x)] on an array of strings. *)
Definition includes (a : list string) (x : string) : bool :=
  existsb (String.eqb x) a.

(** [s.includes(x)] on a string. *)
Fixpoint str_includes (s x : string) : bool :=
  String.prefix x s ||
  match s with
  | EmptyString => false
  | String _ s' => str_includes s' x
  end.

End JS.

Export JS.

(** ** The regular expressions of [readList]

    Every expression the module uses is a sequence of literals and of
    character-class runs [cls+], and every run is followed by a literal
    whose first character lies outside the class (or ends the expression).
    On such an expression the greedy, backtracking match of ECMAScript
    takes the longest run at each class: a shorter run would have to be
    followed by a character of the class where the literal is expected.
    [match_here] computes that match. *)

Module Regex.

Definition LF_char : ascii := "010"%char.
Definition CR_char : ascii := "013"%char.
Definition LF : string := String LF_char EmptyString.
Definition CRLF : string := String CR_char LF.

Inductive Atom :=
| Lit (s : string)               (* literal text *)
| Plus (cls : ascii -> bool)     (* [cls]+ *)
| Group (cls : ascii -> bool).   (* ([cls]+), the capture group *)

Record Match := {
  matched : string;          (* m[0] *)
  capture : option string;   (* m[1] *)
  rest : string              (* the input after the match *)
}.

Definition not_LF (c : ascii) : bool := negb (Ascii.eqb c LF_char).      (* [^\n] *)
Definition not_comma (c : ascii) : bool := negb (Ascii.eqb c ","%char).  (* [^,] *)
Definition digit (c : ascii) : bool :=                                   (* \d *)
  (48 <=? nat_of_ascii c)%nat && (nat_of_ascii c <=? 57)%nat.

(** The longest prefix of [s] inside the class, and what follows it. *)
Fixpoint span (cls : ascii -> bool) (s : string) : string * string :=
  match s with
  | EmptyString => (EmptyString, EmptyString)
  | String c s' =>
      if cls c then let '(run, tl) := span cls s' in (String c run, tl)
      else (EmptyString, s)
  end.

Fixpoint drop_prefix (l s : string) : option string :=
  match l, s with
  | EmptyString, _ => Some s
  | String a l', String b s' => if Ascii.eqb a b then drop_prefix l' s' else None
  | String _ _, EmptyString => None
  end.

Definition cons_match (txt : string) (cap : option string) (m : Match) : Match :=
  {| matched := txt +:+ matched m;
     capture := match cap with Some c => Some c | None => capture m end;
     rest := rest m |}.

Fixpoint match_here (p : list Atom) (s : string) : option Match :=
  match p with
  | [] => Some {| matched := EmptyString; capture := None; rest := s |}
  | Lit l :: p' =>
      match drop_prefix l s with
      | Some tl => option_map (cons_match l None) (match_here p' tl)
      | None => None
      end
  | Plus cls :: p' =>
      let '(run, tl) := span cls s in
      match run with
      | EmptyString => None
      | _ => option_map (cons_match run None) (match_here p' tl)
      end
  | Group cls :: p' =>
      let '(run, tl) := span cls s in
      match run with
      | EmptyString => None
      | _ => option_map (cons_match run (Some run)) (match_here p' tl)
      end
  end.

(** [s.match(re)] without the g flag: the leftmost match. *)
Fixpoint exec (p : list Atom) (s : string) : option Match :=
  match match_here p s with
  | Some m => Some m
  | None =>
      match s with
      | EmptyString => None
      | String _ s' => exec p s'
      end
  end.

(** [s.match(re)] with the g flag: every match, left to right, the search
    resuming where the previous match ended.  [skip] counts the characters
    of the current match still to pass. *)
Fixpoint match_all_aux (p : list Atom) (skip : nat) (s : string) : list string :=
  match s with
  | EmptyString => []
  | String _ s' =>
      match skip with
      | S k => match_all_aux p k s'
      | O =>
          match match_here p s with
          | Some m => matched m :: match_all_aux p (String.length (matched m) - 1) s'
          | None => match_all_aux p 0 s'
          end
      end
  end.

Definition match_all (p : list Atom) (s : string) : list string := match_all_aux p 0 s.

(** /#EXTINF:[^\n]+\n[^\n]+/mg *)
Definition re_entry : list Atom := [Lit "#EXTINF:"; Plus not_LF; Lit LF; Plus not_LF].
(** /EXT-X-TARGETDURATION:([^\n]+)\n/ *)
Definition re_targetduration : list Atom := [Lit "EXT-X-TARGETDURATION:"; Group not_LF; Lit LF].
(** /#EXT-X-MEDIA-SEQUENCE:(\d+)\n/ *)
Definition re_media_sequence : list Atom := [Lit "#EXT-X-MEDIA-SEQUENCE:"; Group digit; Lit LF].
(** /#EXTINF:([^,]+),\n/ *)
Definition re_entry_duration : list Atom := [Lit "#EXTINF:"; Group not_comma; Lit ("," +:+ LF)].
(** /#EXTINF:[^\n]+\n([^\n]+)/ *)
Definition re_entry_file : list Atom := [Lit "#EXTINF:"; Plus not_LF; Lit LF; Group not_LF].

End Regex.

Export Regex.

(** ** Files *)

(** The part of [fs] the module uses: file contents by path
    ([readFileSync], [writeFileSync], [existsSync], [unlinkSync]) and the
    set of polled paths ([watchFile], [unwatchFile]). *)
Record FileSystem := {
  files : gmap string string;
  watched : gset string
}.

Definition existsSync (fs : FileSystem) (p : string) : bool := bool_decide (is_Some (files fs !! p)).

Definition unlinkSync (fs : FileSystem) (p : string) : FileSystem :=
  {| files := delete p (files fs); watched := watched fs |}.

Definition writeFileSync (fs : FileSystem) (p data : string) : FileSystem :=
  {| files := <[p := data]> (files fs); watched := watched fs |}.

Definition watchFile (fs : FileSystem) (p : string) : FileSystem :=
  {| files := files fs; watched := {[p]} ∪ watched fs |}.

Definition unwatchFile (fs : FileSystem) (p : string) : FileSystem :=
  {| files := files fs; watched := watched fs ∖ {[p]} |}.

(** [path.join] and [path.normalize] of Node's path module in its POSIX
    flavour.  The path is cut at every '/'; empty segments and "." are
    dropped, ".." takes back the segment before it (and stays, in a
    relative path, when there is none to take back); a leading and a
    trailing '/' are kept, and an empty result is ".". *)
Definition normalize_segment (allowAboveRoot : bool) (res : list string) (segment : string)
  : list string :=
  if String.eqb segment "" || String.eqb segment "." then res
  else if String.eqb segment ".." then
    match res with
    | [] => if allowAboveRoot then [".."] else []
    | top :: below =>
        if String.eqb top ".." then (if allowAboveRoot then ".." :: res else res) else below
    end
  else segment :: res.

Definition normalize (path : string) : string :=
  match path with
  | EmptyString => "."
  | String c _ =>
      let isAbsolute := Ascii.eqb c "/" in
      let trailingSeparator :=
        match last (list_ascii_of_string path) with
        | Some d => Ascii.eqb d "/"
        | None => false
        end in
      match fold_left (normalize_segment (negb isAbsolute)) (js_split path "/") [] with
      | [] => if isAbsolute then "/" else if trailingSeparator then "./" else "."
      | res =>
          (if isAbsolute then "/" else "") +:+ String.concat "/" (rev res)
          +:+ (if trailingSeparator then "/" else "")
      end
  end.

(** [path.join(dir, name)]: the arguments that are not empty, joined by
    '/' and normalized. *)
Definition path_join (dir name : string) : string :=
  match dir, name with
  | EmptyString, EmptyString => "."
  | EmptyString, _ => normalize name
  | _, EmptyString => normalize dir
  | _, _ => normalize (dir +:+ "/" +:+ name)
  end.

(** ** The playlist codec: [readList] and [writeMasterList] *)

(** [{duration, file}] of an entry; [discontinuity] is absent (false) until
    the session sets it. *)
Record Segment := {
  seg_duration : string;
  seg_file : string;
  seg_discontinuity : bool
}.

(** What [readList] returns: the target duration as captured (a string),
    the media sequence (a number) and the last entry of the playlist. *)
Record Snapshot := {
  sn_duration : string;
  sn_sequence : Number;
  sn_segment : Segment
}.

(** The object [writeMasterList] destructures. *)
Record View := {
  v_duration : Number;
  v_sequence : Number;
  v_segments : list Segment
}.

Definition null_deref (what : string) : Error := TypeError ("Cannot read properties of null: " +:+ what).
Definition undefined_deref (what : string) : Error :=
  TypeError ("Cannot read properties of undefined: " +:+ what).

(** [s.match(re)[1]] *)
Definition match1 (re : list Atom) (s : string) (what : string) : Completion string :=
  match exec re s with
  | Some m =>
      match capture m with
      | Some c => Normal c
      | None => Throw (undefined_deref what)
      end
  | None => Throw (null_deref what)
  end.

(** src/ffmpeg.js, readList (lines 572-583). *)
Definition readList (fs : FileSystem) (destinationPath : string) : Completion Snapshot :=
  match files fs !! destinationPath with
  | None => Throw (ENOENT destinationPath)
  | Some data =>
      match last (match_all re_entry data) with
      | None => Throw (null_deref "pop")
      | Some segment =>
          bind (match1 re_targetduration data "duration") (fun duration =>
          bind (match1 re_media_sequence data "sequence") (fun sequence =>
          bind (match1 re_entry_duration segment "segment.duration") (fun sduration =>
          bind (match1 re_entry_file segment "segment.file") (fun sfile =>
          Normal {| sn_duration := duration;
                    sn_sequence := ToNumber sequence;
                    sn_segment := {| seg_duration := sduration;
                                     seg_file := sfile;
                                     seg_discontinuity := false |} |}))))
      end
  end.

(** [url ? new URL(segment.file, url).href : segment.file].  The WHATWG
    resolution [href] is the host's; it throws on a base it cannot parse.
    An absent or empty [url] is falsy. *)
Definition truthy (url : option string) : option string :=
  match url with
  | Some EmptyString => None
  | _ => url
  end.

Definition rewrite_file (href : string -> string -> Completion string)
    (url : option string) (file : string) : Completion string :=
  match truthy url with
  | Some base => href file base
  | None => Normal file
  end.

(** The lines pushed for one segment by the loop of [writeMasterList]. *)
Definition segment_lines (href : string -> string -> Completion string)
    (url : option string) (segment : Segment) : Completion (list string) :=
  bind (rewrite_file href url (seg_file segment)) (fun file =>
  Normal ((if seg_discontinuity segment then ["#EXT-X-DISCONTINUITY"] else [])
          ++ ["#EXTINF:" +:+ seg_duration segment +:+ ","; file])).

Fixpoint segments_lines (href : string -> string -> Completion string)
    (url : option string) (segments : list Segment) : Completion (list string) :=
  match segments with
  | [] => Normal []
  | segment :: tl =>
      bind (segment_lines href url segment) (fun l1 =>
      bind (segments_lines href url tl) (fun l2 => Normal (l1 ++ l2)))
  end.

(** [lines.join(sep)] *)
Fixpoint join (sep : string) (lines : list string) : string :=
  match lines with
  | [] => EmptyString
  | [l] => l
  | l :: tl => l +:+ sep +:+ join sep tl
  end.

Definition header_lines (duration sequence : Number) : list string :=
  [ "#EXTM3U";
    "#EXT-X-VERSION:3";
    "#EXT-X-ALLOW-CACHE:YES";
    "#EXT-X-TARGETDURATION:" +:+ NumberToString duration;
    "#EXT-X-MEDIA-SEQUENCE:" +:+ NumberToString sequence ].

(** The text [writeMasterList] hands to [writeFileSync]. *)
Definition serialize (href : string -> string -> Completion string)
    (url : option string) (view : View) : Completion string :=
  bind (segments_lines href url (v_segments view)) (fun body =>
  Normal (join LF (header_lines (v_duration view) (v_sequence view) ++ body))).

(** src/ffmpeg.js, writeMasterList (lines 591-611). *)
Definition writeMasterList (href : string -> string -> Completion string)
    (fs : FileSystem) (fileDir : string) (url : option string) (view : View) : Completion FileSystem :=
  bind (serialize href url view) (fun text => Normal (writeFileSync fs fileDir text)).

(** ** The rendition table (lines 560-565) *)

Record Rendition := {
  width : N; height : N; audiorate : N; bitrate : N; maxrate : N; bufsize : N
}.

Definition RENDITIONS : list Rendition :=
  [ {| width := 640; height := 360; audiorate := 96; bitrate := 800; maxrate := 856; bufsize := 1200 |};
    {| width := 842; height := 480; audiorate := 128; bitrate := 1400; maxrate := 1498; bufsize := 2100 |};
    {| width := 1280; height := 720; audiorate := 128; bitrate := 2800; maxrate := 2996; bufsize := 4200 |};
    {| width := 1920; height := 1080; audiorate := 192; bitrate := 5000; maxrate := 5350; bufsize := 7500 |} ].

(** [Math.pow(2, i) & resolutionMask], for a mask below 2^31. *)
Definition mask_bit (resolutionMask : N) (i : nat) : bool := N.testbit resolutionMask (N.of_nat i).

(** The profiles a mask enables, in table order. *)
Definition enabled (resolutionMask : N) : list Rendition :=
  omap (fun '(i, rendition) => if mask_bit resolutionMask i then Some rendition else None)
       (imap (fun i rendition => (i, rendition)) RENDITIONS).

(** `${rendition.height}p` *)
Definition res_key (rendition : Rendition) : string := N_to_string (height rendition) +:+ "p".

(** ** class Emission (lines 616-804) *)

(** The child process, as far as the module drives it: [stop] pauses its
    stdin and sends the termination signal. *)
Record Process := {
  stdin_paused : bool;
  killed : bool
}.

(** The promise [start] returns. *)
Inductive Promise :=
| Pending
| Resolved
| Rejected (reason : string).

(** [resolve]/[reject] of a promise: only the first settlement counts. *)
Definition settle (p outcome : Promise) : Promise :=
  match p with
  | Pending => outcome
  | _ => p
  end.

Module Emission.

Record t := {
  _dir : string;
  _input : string;
  _segmentTime : N;
  _listSize : Z;
  _timestamp : string;
  _params : list string;
  _list : gmap string (list Snapshot);
  _process : option Process;
  (* the promise of the start() call that spawned the process *)
  promise : Promise
}.

Definition set_list (e : t) (l : gmap string (list Snapshot)) : t :=
  {| _dir := _dir e; _input := _input e; _segmentTime := _segmentTime e;
     _listSize := _listSize e; _timestamp := _timestamp e; _params := _params e;
     _list := l; _process := _process e; promise := promise e |}.

Definition set_process (e : t) (p : option Process) : t :=
  {| _dir := _dir e; _input := _input e; _segmentTime := _segmentTime e;
     _listSize := _listSize e; _timestamp := _timestamp e; _params := _params e;
     _list := _list e; _process := p; promise := promise e |}.

Definition set_promise (e : t) (p : Promise) : t :=
  {| _dir := _dir e; _input := _input e; _segmentTime := _segmentTime e;
     _listSize := _listSize e; _timestamp := _timestamp e; _params := _params e;
     _list := _list e; _process := _process e; promise := p |}.

(** The engine playlist of a rendition:
    path.join(this.dir, `${this.timestamp}_${res}.m3u8`). *)
Definition listDir (dir timestamp res : string) : string :=
  path_join dir (timestamp +:+ "_" +:+ res +:+ ".m3u8").

(** getRendition (lines 653-679). *)
Definition getRendition (dir timestamp : string) (segmentTime : N) (rendition : Rendition)
  : list string :=
  let segment := path_join dir (N_to_string (height rendition) +:+ "p_%04d.ts") in
  let playlist := listDir dir timestamp (res_key rendition) in
  [ "-vf"; "scale=w=" +:+ N_to_string (width rendition) +:+ ":h=" +:+ N_to_string (height rendition)
            +:+ ":force_original_aspect_ratio=decrease";
    "-c:a"; "aac";
    "-ar"; "48000";
    "-b:a"; N_to_string (audiorate rendition) +:+ "k";
    "-c:v"; "h264";
    "-profile:v"; "main";
    "-crf"; "20";
    "-g"; "48";
    "-keyint_min"; "48";
    "-sc_threshold"; "0";
    "-b:v"; N_to_string (bitrate rendition) +:+ "k";
    "-maxrate"; N_to_string (maxrate rendition) +:+ "k";
    "-bufsize"; N_to_string (bufsize rendition) +:+ "k";
    "-hls_time"; N_to_string segmentTime;
    "-hls_list_size"; "1";
    "-hls_wrap"; "40";
    "-start_number"; "0";
    "-preset"; "superfast";
    "-hls_segment_filename"; segment;
    playlist ].

(** getRenditions (lines 686-694). *)
Definition getRenditions (dir timestamp : string) (segmentTime : N) (resolutionMask : N)
  : list string :=
  flat_map (getRendition dir timestamp segmentTime) (enabled resolutionMask).

(** constructor (lines 625-640); [now] is what Date.now() returns. *)
Definition new (dir input : string) (segmentTime : N) (listSize : Z) (resolutionMask : N)
    (now : N) : t :=
  let timestamp := N_to_string now in
  {| _dir := dir;
     _input := input;
     _segmentTime := segmentTime;
     _listSize := listSize;
     _timestamp := timestamp;
     _params := ["-re"; "-i"; input] ++ getRenditions dir timestamp segmentTime resolutionMask;
     _list := list_to_map (map (fun rendition => (res_key rendition, [])) (enabled resolutionMask));
     _process := None;
     promise := Pending |}.

(** The names an Emission answers to: the fields its constructor and
    [start] assign, and the accessors and methods of the class body
    (lines 642-646, 653, 686, 700, 748, 759, 773, 793).  Reading any other
    name from an Emission yields undefined. *)
Definition member_names : list string :=
  [ "_dir"; "_input"; "_segmentTime"; "_listSize"; "_timestamp"; "_params"; "_onWrite";
    "_list"; "_process";
    "dir"; "input"; "segmentTime"; "listSize"; "timestamp";
    "getRendition"; "getRenditions"; "start"; "stop"; "isEmpty"; "dispose"; "disposeAll" ].

Definition has_member (name : string) : bool := existsb (String.eqb name) member_names.

(** [e.list], as the session's callback reads it (lines 880, 889). *)
Definition get_list (e : t) : option (gmap string (list Snapshot)) :=
  if has_member "list" then Some (_list e) else None.

(** stop (lines 748-753). *)
Definition stop (e : t) : t :=
  match _process e with
  | Some p => set_process e (Some {| stdin_paused := true; killed := true |})
  | None => e
  end.

(** isEmpty (lines 759-766). *)
Definition isEmpty (e : t) : bool :=
  bool_decide (map_Forall (fun _ (l : list Snapshot) => l = []) (_list e)).

(** dispose (lines 773-788): the new file system, the Emission after the
    splice, and the value returned. *)
Definition dispose (fs : FileSystem) (e : t) (res : string) : Completion (FileSystem * t * bool) :=
  match _list e !! res with
  | None => Throw (undefined_deref "length")
  | Some [] => Normal (fs, e, false)
  | Some (item :: tl) =>
      let segDir := path_join (_dir e) (seg_file (sn_segment item)) in
      let fs1 := if existsSync fs segDir then unlinkSync fs segDir else fs in
      let e1 := set_list e (<[res := tl]> (_list e)) in
      match tl with
      | [] =>
          let ld := listDir (_dir e) (_timestamp e) res in
          let fs2 := unwatchFile fs1 ld in
          let fs3 := if existsSync fs2 ld then unlinkSync fs2 ld else fs2 in
          Normal (fs3, e1, true)
      | _ :: _ => Normal (fs1, e1, false)
      end
  end.

(** disposeAll (lines 793-803).  The buffers themselves are left as they
    are: only files are removed. *)
Definition disposeAll (fs : FileSystem) (e : t) : FileSystem :=
  map_fold (fun res (items : list Snapshot) fs0 =>
    let fs1 := fold_left (fun fs' item =>
                 let segDir := path_join (_dir e) (seg_file (sn_segment item)) in
                 if existsSync fs' segDir then unlinkSync fs' segDir else fs') items fs0 in
    let ld := listDir (_dir e) (_timestamp e) res in
    let fs2 := unwatchFile fs1 ld in
    if existsSync fs2 ld then unlinkSync fs2 ld else fs2) fs (_list e).

(** The phrases [start] looks for (lines 706-711). *)
Definition knownErrors : list string :=
  [ "Invalid argument";
    "No such file or directory";
    "Invalid data found when processing input";
    "No streams to mux were specified" ].

(** start (lines 700-743): the guard, the spawn, and the watchers of the
    final loop.  The handlers it registers are the definitions below. *)
Definition start (fs : FileSystem) (e : t) : FileSystem * t * Promise :=
  match _process e with
  | Some _ => (fs, e, Rejected "Already in transition")
  | None =>
      let e1 := set_process e (Some {| stdin_paused := false; killed := false |}) in
      let fs1 := map_fold (fun res _ fs0 => watchFile fs0 (listDir (_dir e) (_timestamp e) res))
                          fs (_list e) in
      (fs1, e1, Pending)
  end.

(** The stderr 'data' handler (lines 716-723). *)
Definition on_stderr_data (e : t) (data : string) : t :=
  let output := js_split data CRLF in
  match find (fun error => includes output error) knownErrors with
  | Some error => set_promise e (settle (promise e) (Rejected error))
  | None => e
  end.

(** The 'error' handler (lines 725-727). *)
Definition on_error (e : t) (err : string) : t :=
  set_promise e (settle (promise e) (Rejected err)).

(** The 'close' handler (lines 728-730). *)
Definition on_close (e : t) (code : Z) : t :=
  set_promise e (settle (promise e) Resolved).

(** The watchFile listener up to the call of [_onWrite] (lines 734-738):
    [None] when the playlist does not exist, so that nothing is pushed and
    the session is not called. *)
Definition on_change (fs : FileSystem) (e : t) (res : string) : Completion (option t) :=
  let ld := listDir (_dir e) (_timestamp e) res in
  if existsSync fs ld then
    bind (readList fs ld) (fun snapshot =>
    match _list e !! res with
    | Some items => Normal (Some (set_list e (<[res := items ++ [snapshot]]> (_list e))))
    | None => Throw (undefined_deref "push")
    end)
  else Normal None.

End Emission.

(** ** class FileStreaming (lines 809-946) *)

(** An entry of the merged list of the callback (lines 881-886, 890-898).
    An entry of the first loop holds the stored [li.segment] object itself:
    [it_origin] is its index in the owner's buffer when the list was built.
    An entry of the second loop holds a fresh [{duration, file}] copy. *)
Record Item := {
  it_emission : nat;
  it_duration : string;
  it_sequence : Number;
  it_segment : Segment;
  it_origin : option nat
}.

Definition set_discontinuity (segment : Segment) : Segment :=
  {| seg_duration := seg_duration segment; seg_file := seg_file segment;
     seg_discontinuity := true |}.

Definition tag (l : Item) : Item :=
  {| it_emission := it_emission l; it_duration := it_duration l;
     it_sequence := it_sequence l; it_segment := set_discontinuity (it_segment l);
     it_origin := it_origin l |}.

(** Lines 880-887: the entries of [this._last]. *)
Definition last_items (owner : nat) (buf : list Snapshot) : list Item :=
  imap (fun i li => {| it_emission := owner; it_duration := sn_duration li;
                       it_sequence := sn_sequence li; it_segment := sn_segment li;
                       it_origin := Some i |}) buf.

(** Lines 889-899: the entries of [this._current]. *)
Definition current_items (owner : nat) (buf : list Snapshot) : list Item :=
  map (fun li => {| it_emission := owner; it_duration := sn_duration li;
                    it_sequence := sn_sequence li;
                    it_segment := {| seg_duration := seg_duration (sn_segment li);
                                     seg_file := seg_file (sn_segment li);
                                     seg_discontinuity := false |};
                    it_origin := None |}) buf.

(** [first.segment.discontinuity = true] on the first entry that satisfies
    [p]; [None] when there is none ([first] is undefined). *)
Fixpoint tag_first (p : Item -> bool) (lst : list Item) : option (list Item) :=
  match lst with
  | [] => None
  | l :: tl => if p l then Some (tag l :: tl) else option_map (cons l) (tag_first p tl)
  end.

Module FileStreaming.

Record t := {
  _dir : string;
  _url : option string;
  _resolutionMask : N;
  _segmentTime : N;
  _listSize : Z;
  _last : option nat;
  _current : option nat;
  (* the Emission objects created so far, by address *)
  heap : gmap nat Emission.t;
  fs : FileSystem
}.

Definition set_refs (s : t) (last current : option nat) : t :=
  {| _dir := _dir s; _url := _url s; _resolutionMask := _resolutionMask s;
     _segmentTime := _segmentTime s; _listSize := _listSize s;
     _last := last; _current := current; heap := heap s; fs := fs s |}.

Definition set_heap (s : t) (h : gmap nat Emission.t) : t :=
  {| _dir := _dir s; _url := _url s; _resolutionMask := _resolutionMask s;
     _segmentTime := _segmentTime s; _listSize := _listSize s;
     _last := _last s; _current := _current s; heap := h; fs := fs s |}.

Definition set_fs (s : t) (f : FileSystem) : t :=
  {| _dir := _dir s; _url := _url s; _resolutionMask := _resolutionMask s;
     _segmentTime := _segmentTime s; _listSize := _listSize s;
     _last := _last s; _current := _current s; heap := heap s; fs := f |}.

(** The names bound where the class body is evaluated: the declarations
    of the module (lines 556-560, 572, 591, 616), the name of the class
    expression, the parameters of the CommonJS wrapper and the globals the
    module refers to.  Each comes with the names its value answers to. *)
Definition scope : list (string * list string) :=
  [ ("fs", ["readFileSync"; "writeFileSync"; "existsSync"; "unlinkSync"; "watchFile";
            "unwatchFile"; "rmdirSync"; "mkdirSync"]);
    ("path", ["join"]);
    ("spawn", []);
    ("ffmpeg", []);
    ("RENDITIONS", ["length"]);
    ("readList", []);
    ("writeMasterList", []);
    ("Emission", []);
    ("FileStreaming", []);
    ("require", []); ("module", ["exports"]); ("exports", []);
    ("__filename", []); ("__dirname", []);
    ("process", ["env"]); ("Object", ["freeze"]); ("Math", ["pow"; "max"]);
    ("Date", ["now"]); ("URL", []); ("Promise", []) ].

Definition lookup_identifier (name : string) : option (list string) :=
  option_map snd (find (fun b => String.eqb (fst b) name) scope).

(** get renditions (line 851). *)
Definition renditions (s : t) : Completion (list Rendition) :=
  match lookup_identifier "LiveStreaming" with
  | None => Throw (ReferenceError "LiveStreaming")
  | Some members =>
      if existsb (String.eqb "getResolutions") members
      then Normal (enabled (_resolutionMask s))
      else Throw (TypeError "LiveStreaming.getResolutions is not a function")
  end.

(** What [emit] hands back: the rejection of line 864, or the address of
    the Emission whose [start] promise it follows (lines 927-929). *)
Inductive EmitOutcome :=
| EmitRejected (reason : string)
| EmitStarted (address : nat).

(** A free address for a new object. *)
Definition fresh_address (h : gmap nat Emission.t) : nat := fresh (dom h).

(** emit (lines 860-931), up to the registration of the callback. *)
Definition emit (s : t) (input : string) (now : N) : t * EmitOutcome :=
  match _last s with
  | Some _ => (s, EmitRejected "Transition in progress")
  | None =>
      let emission := Emission.new (_dir s) input (_segmentTime s) (_listSize s)
                                   (_resolutionMask s) now in
      let '(fs1, started, _) := Emission.start (fs s) emission in
      let address := fresh_address (heap s) in
      (set_fs (set_heap s (<[address := started]> (heap s))) fs1, EmitStarted address)
  end.

(** [a > b] on strings. *)
Definition string_gt (a b : string) : bool :=
  match String.compare b a with
  | Lt => true
  | _ => false
  end.

(** Lines 869-876 of the callback: promotion. *)
Definition promote (s : t) (e : nat) : t :=
  match _current s with
  | None => set_refs s (_last s) (Some e)
  | Some c =>
      match heap s !! e, heap s !! c with
      | Some emission, Some current =>
          if negb (Nat.eqb e c)
             && string_gt (Emission._timestamp emission) (Emission._timestamp current)
          then set_heap (set_refs s (Some c) (Some e)) (<[c := Emission.stop current]> (heap s))
          else s
      | _, _ => s
      end
  end.

(** The buffer of rendition [r] of the object at [address]. *)
Definition buffer (s : t) (address : nat) (r : string) : list Snapshot :=
  match heap s !! address with
  | Some e => default [] (Emission._list e !! r)
  | None => []
  end.

(** Lines 878-899: the two loops, over the buffers that a read of
    [.list[r]] through [rd] yields. *)
Definition merge (rd : Emission.t -> option (gmap string (list Snapshot)))
    (s : t) (r : string) : Completion (list Item) :=
  let read (address : nat) : Completion (list Snapshot) :=
    match heap s !! address with
    | None => Throw (undefined_deref "list")
    | Some e =>
        match rd e with
        | None => Throw (undefined_deref r)
        | Some lists =>
            match lists !! r with
            | Some buf => Normal buf
            | None => Throw (TypeError "undefined is not iterable")
            end
        end
    end in
  bind (match _last s with
        | Some l => bind (read l) (fun buf => Normal (last_items l buf))
        | None => Normal []
        end) (fun list1 =>
  bind (match _current s with
        | Some c => bind (read c) (fun buf => Normal (current_items c buf))
        | None => Throw (undefined_deref "list")
        end) (fun list2 =>
  Normal (list1 ++ list2))).

(** Lines 907-908. *)
Definition release (s : t) (address : nat) : t :=
  set_refs s
    (if bool_decide (_last s = Some address) then None else _last s)
    (if bool_decide (_current s = Some address) then None else _current s).

(** Lines 905-910: the body of the disposal loop for one entry. *)
Definition dispose_item (s : t) (r : string) (item : Item) : Completion t :=
  match heap s !! it_emission item with
  | None => Throw (undefined_deref "dispose")
  | Some e =>
      bind (Emission.dispose (fs s) e r) (fun '(fs1, e1, emptied) =>
      let s1 := set_fs (set_heap s (<[it_emission item := e1]> (heap s))) fs1 in
      Normal (if emptied && Emission.isEmpty e1 then release s1 (it_emission item) else s1))
  end.

(** Lines 904-911: the loop; the state reached is kept when it throws. *)
Fixpoint dispose_loop (s : t) (r : string) (markToDispose : list Item) : t * Completion unit :=
  match markToDispose with
  | [] => (s, Normal tt)
  | item :: tl =>
      match dispose_item s r item with
      | Normal s1 => dispose_loop s1 r tl
      | Throw err => (s, Throw err)
      end
  end.

(** [dif] of line 901 when positive, else 0: what [splice(0, dif)] is
    asked to remove. *)
Definition overflow (lst : list Item) (listSize : Z) : nat :=
  Z.to_nat (Z.of_nat (length lst) - listSize).

Definition is_emission (ref : option nat) (l : Item) : bool :=
  bool_decide (ref = Some (it_emission l)).

(** The effect of line 916 on the stored object when [first.segment] is
    one: it sits in its owner's buffer, [removed] places nearer the head
    than when the list was built. *)
Definition flag_stored (s0 s : t) (r : string) (first : Item) : t :=
  match it_origin first, heap s !! it_emission first with
  | Some i, Some e =>
      let removed := length (buffer s0 (it_emission first) r)
                     - length (buffer s (it_emission first) r) in
      if (removed <=? i)%nat then
        let buf := buffer s (it_emission first) r in
        let buf1 := alter (fun li => {| sn_duration := sn_duration li;
                                        sn_sequence := sn_sequence li;
                                        sn_segment := set_discontinuity (sn_segment li) |})
                          (i - removed)%nat buf in
        set_heap s (<[it_emission first :=
                        Emission.set_list e (<[r := buf1]> (Emission._list e))]> (heap s))
      else s
  | _, _ => s
  end.

(** Lines 914-917. *)
Definition tag_discontinuity (s0 s : t) (r : string) (lst : list Item)
  : t * Completion (list Item) :=
  match find (is_emission (_last s)) lst with
  | Some _ =>
      match find (is_emission (_current s)) lst, tag_first (is_emission (_current s)) lst with
      | Some first, Some list1 => (flag_stored s0 s r first, Normal list1)
      | _, _ => (s, Throw (undefined_deref "segment"))
      end
  | None => (s, Normal lst)
  end.

(** Lines 918-922. *)
Definition make_view (lst : list Item) : Completion View :=
  let duration := Math_max (map (fun o => ToNumber (it_duration o)) lst) (Num 0) in
  match lst with
  | [] => Throw (undefined_deref "sequence")
  | oldest :: _ =>
      Normal {| v_duration := duration;
                v_sequence := it_sequence oldest;
                v_segments := map it_segment lst |}
  end.

(** `${r}.m3u8` in the session folder (line 923). *)
Definition fileDir (s : t) (r : string) : string := path_join (_dir s) (r +:+ ".m3u8").

(** Lines 901-924 of the callback, from the merged [list] on: trim and
    dispose, tag, recompute, write. *)
Definition window (href : string -> string -> Completion string)
    (s : t) (r : string) (lst : list Item) : t * Completion unit :=
  let dif := overflow lst (_listSize s) in
  let markToDispose := take dif lst in
  let kept := drop dif lst in
  match dispose_loop s r markToDispose with
  | (s1, Throw err) => (s1, Throw err)
  | (s1, Normal _) =>
      match tag_discontinuity s s1 r kept with
      | (s2, Throw err) => (s2, Throw err)
      | (s2, Normal tagged) =>
          match bind (make_view tagged)
                     (fun view => writeMasterList href (fs s2) (fileDir s2 r) (_url s2) view) with
          | Normal fs1 => (set_fs s2 fs1, Normal tt)
          | Throw err => (s2, Throw err)
          end
      end
  end.

(** The callback with the reads of [.list] left to [rd]. *)
Definition callback (href : string -> string -> Completion string)
    (rd : Emission.t -> option (gmap string (list Snapshot)))
    (s : t) (e : nat) (r : string) : t * Completion unit :=
  let s1 := promote s e in
  match merge rd s1 r with
  | Normal lst => window href s1 r lst
  | Throw err => (s1, Throw err)
  end.

(** The callback [emit] passes to an Emission (lines 868-925), as the
    source has it. *)
Definition onWrite (href : string -> string -> Completion string)
    (s : t) (e : nat) (r : string) : t * Completion unit :=
  callback href Emission.get_list s e r.

(** The watchFile listener of an Emission created by [emit] (lines
    734-740): parse, push, call back. *)
Definition segmentWritten (href : string -> string -> Completion string)
    (s : t) (e : nat) (res : string) : t * Completion unit :=
  match heap s !! e with
  | None => (s, Normal tt)
  | Some emission =>
      match Emission.on_change (fs s) emission res with
      | Throw err => (s, Throw err)
      | Normal None => (s, Normal tt)
      | Normal (Some pushed) => onWrite href (set_heap s (<[e := pushed]> (heap s))) e res
      end
  end.

(** stop (lines 936-945). *)
Definition stop (s : t) : t :=
  let stop_one (s0 : t) (ref : option nat) : t :=
    match ref with
    | Some a =>
        match heap s0 !! a with
        | Some e =>
            let e1 := Emission.stop e in
            set_fs (set_heap s0 (<[a := e1]> (heap s0))) (Emission.disposeAll (fs s0) e1)
        | None => s0
        end
    | None => s0
    end in
  stop_one (stop_one s (_last s)) (_current s).

End FileStreaming.

(** * The first revision of the module (lines 1-267): class Emission

    The file keeps the earlier states of the module.  In the first one an
    Emission drives one engine and follows its diagnostic stream: it tells
    its caller of every playlist the engine has written and stops the
    engine on a fatal phrase. *)

Module EmissionV1.

(** [x || d] for a count that may be absent: undefined and 0 are falsy. *)
Definition or_default (x : option N) (d : N) : N :=
  match x with
  | None | Some 0%N => d
  | Some n => n
  end.

Record t := {
  link : string;
  startNumber : N;
  path : string;
  segment_time : N;       (* this.segment.time *)
  segment_format : string; (* this.segment.format *)
  list_size : N;          (* this.list.size *)
  list_path : string;     (* this.list.path *)
  running : bool;         (* absent until [start] sets it *)
  process : option Process;
  index : option N        (* this.index, absent until the first notification *)
}.

Definition set_running (e : t) (r : bool) (p : option Process) : t :=
  {| link := link e; startNumber := startNumber e; path := path e;
     segment_time := segment_time e; segment_format := segment_format e;
     list_size := list_size e; list_path := list_path e;
     running := r; process := p; index := index e |}.

Definition set_index (e : t) (i : N) : t :=
  {| link := link e; startNumber := startNumber e; path := path e;
     segment_time := segment_time e; segment_format := segment_format e;
     list_size := list_size e; list_path := list_path e;
     running := running e; process := process e; index := Some i |}.

(** constructor (lines 138-150). *)
Definition new (link destinationPath : string) (startNumber segmentTime listSize : option N)
    (segmentFormat listName : string) : t :=
  {| link := link;
     startNumber := or_default startNumber 0;
     path := destinationPath;
     segment_time := or_default segmentTime 10;
     segment_format := path_join destinationPath (segmentFormat +:+ ".ts");
     list_size := or_default listSize 5;
     list_path := path_join destinationPath (listName +:+ ".m3u8");
     running := false;
     process := None;
     index := None |}.

(** The arguments [start] spawns the engine with (lines 161-182). *)
Definition params (e : t) : list string :=
  [ "-re";
    "-i"; link e;
    "-vf"; "scale=w=1920:h=780:force_original_aspect_ratio=decrease";
    "-c:a"; "aac";
    "-ar"; "48000";
    "-b:a"; "128k";
    "-c:v"; "h264";
    "-profile:v"; "main";
    "-crf"; "20";
    "-g"; "48";
    "-keyint_min"; "48";
    "-sc_threshold"; "0";
    "-b:v"; "2500k";
    "-maxrate"; "2675k";
    "-bufsize"; "3750k";
    "-start_number"; N_to_string (startNumber e);
    "-hls_time"; N_to_string (segment_time e);
    "-hls_list_size"; N_to_string (list_size e);
    "-hls_segment_filename"; segment_format e;
    list_path e ].

(** The phrases of lines 186-190. *)
Definition knownErrors : list string :=
  [ "No such file or directory";
    "Invalid data found when processing input";
    "No streams to mux were specified" ].

(** What the engine prints when it opens the playlist for writing:
    /\.m3u8\.tmp' for writing/ (line 216). *)
Definition writing_notice : string := ".m3u8.tmp' for writing".

(** The variables a call of [start] closes over (lines 184, 194), the
    promise it returns, and the values of [self.index] its caller was
    notified with, oldest first. *)
Record Listener := {
  next_index : N;       (* let index *)
  writting : bool;      (* let writting *)
  promise : Promise;
  notified : list N
}.

(** stop (lines 230-236). *)
Definition stop (e : t) : t :=
  if running e then set_running e false (Some {| stdin_paused := true; killed := true |})
  else e.

(** start (lines 152-228), up to the registration of the handlers:
    [None] for the listener when the call is rejected. *)
Definition start (e : t) : t * option Listener * Promise :=
  if running e then (e, None, Rejected "Already running")
  else (set_running e true (Some {| stdin_paused := false; killed := false |}),
        Some {| next_index := startNumber e; writting := false;
                promise := Pending; notified := [] |},
        Pending).

(** The stderr 'data' handler (lines 196-217); [onData] tells whether the
    caller passed a callback. *)
Definition on_data (onData : bool) (state : t * Listener) (msg : string) : t * Listener :=
  let '(e, l) := state in
  let '(e1, l1) :=
    if writting l
    then (set_index e (next_index l),
          {| next_index := next_index l + 1; writting := false; promise := promise l;
             notified := if onData then notified l ++ [next_index l] else notified l |})
    else (e, l) in
  match find (fun err => str_includes msg err) knownErrors with
  | Some err =>
      (stop e1,
       {| next_index := next_index l1; writting := writting l1;
          promise := settle (promise l1) (Rejected err); notified := notified l1 |})
  | None =>
      (e1,
       {| next_index := next_index l1; writting := str_includes msg writing_notice;
          promise := promise l1; notified := notified l1 |})
  end.

(** The 'error' handler (lines 219-222). *)
Definition on_error (state : t * Listener) (err : string) : t * Listener :=
  let '(e, l) := state in
  (set_running e false (process e),
   {| next_index := next_index l; writting := writting l;
      promise := settle (promise l) (Rejected err); notified := notified l |}).

(** The 'close' handler (lines 223-226). *)
Definition on_close (state : t * Listener) : t * Listener :=
  let '(e, l) := state in
  (set_running e false (process e),
   {| next_index := next_index l; writting := writting l;
      promise := settle (promise l) Resolved; notified := notified l |}).

End EmissionV1.

(** * Vocabulary of the properties, and sample states *)

(** What the constructor fixes for the life of a session. *)
Definition config (s : FileStreaming.t) : string * option string * N * N * Z :=
  (FileStreaming._dir s, FileStreaming._url s, FileStreaming._resolutionMask s,
   FileStreaming._segmentTime s, FileStreaming._listSize s).

(** A resolver for the samples: the base followed by the file name. *)
Definition sample_href (file base : string) : Completion string := Normal (base +:+ file).

(** An engine playlist with one entry, as the engine writes it with
    -hls_list_size 1. *)
Definition engine_playlist (targetduration sequence extinf file : string) : string :=
  join LF [ "#EXTM3U"; "#EXT-X-VERSION:3";
            "#EXT-X-TARGETDURATION:" +:+ targetduration;
            "#EXT-X-MEDIA-SEQUENCE:" +:+ sequence;
            "#EXTINF:" +:+ extinf +:+ ",";
            file;
            "" ].

(** A 720p-only Emission created at time 1000 and started. *)
Definition sample_emission : Emission.t :=
  snd (fst (Emission.start {| files := ∅; watched := ∅ |}
                           (Emission.new "out" "in.mp4" 5 5 4 1000))).

(** Its engine playlist on disk, holding entry 7. *)
Definition sample_fs : FileSystem :=
  {| files := {[ Emission.listDir "out" "1000" "720p" :=
                   engine_playlist "5" "7" "5.000000" "720p_0007.ts" ]};
     watched := {[ Emission.listDir "out" "1000" "720p" ]} |}.

(** What [readList] makes of it. *)
Definition sample_snapshot : Snapshot :=
  {| sn_duration := "5"; sn_sequence := Num 7;
     sn_segment := {| seg_duration := "5.000000"; seg_file := "720p_0007.ts";
                      seg_discontinuity := false |} |}.

(** The sequence numbers buffered for a rendition. *)
Definition sequences (e : Emission.t) (res : string) : list Number :=
  map sn_sequence (default [] (Emission._list e !! res)).

(** The target duration the callback computes (line 919). *)
Definition view_duration (lst : list Item) : Number :=
  Math_max (map (fun o => ToNumber (it_duration o)) lst) (Num 0).

(** A snapshot of an engine playlist whose only entry is [sequence]. *)
Definition snapshot (targetduration : string) (sequence : Z) (extinf file : string) : Snapshot :=
  {| sn_duration := targetduration; sn_sequence := Num sequence;
     sn_segment := {| seg_duration := extinf; seg_file := file; seg_discontinuity := false |} |}.

(** A started 720p-only Emission created at [now], holding [buf]. *)
Definition emission_with (now : N) (buf : list Snapshot) : Emission.t :=
  let e := snd (fst (Emission.start {| files := ∅; watched := ∅ |}
                                    (Emission.new "out" "in.mp4" 5 5 4 now))) in
  Emission.set_list e (<["720p" := buf]> (Emission._list e)).

Definition session_with (listSize : Z) (last current : option nat)
    (h : gmap nat Emission.t) (f : FileSystem) : FileStreaming.t :=
  {| FileStreaming._dir := "out"; FileStreaming._url := None;
     FileStreaming._resolutionMask := 4; FileStreaming._segmentTime := 5;
     FileStreaming._listSize := listSize;
     FileStreaming._last := last; FileStreaming._current := current;
     FileStreaming.heap := h; FileStreaming.fs := f |}.

(** The files of an Emission's buffered segments and its engine playlist. *)
Definition files_of (timestamp : string) (buf : list Snapshot) : gmap string string :=
  <[Emission.listDir "out" timestamp "720p" := "playlist"]>
    (list_to_map (map (fun li => (path_join "out" (seg_file (sn_segment li)), "ts")) buf)).

(** One Emission, four segments of 4 seconds in a playlist of target
    duration 6, a window of 3. *)
Definition buffer_A : list Snapshot :=
  [ snapshot "6" 0 "4" "720p_0000.ts"; snapshot "6" 1 "4" "720p_0001.ts";
    snapshot "6" 2 "4" "720p_0002.ts"; snapshot "6" 3 "4" "720p_0003.ts" ].

Definition session_A : FileStreaming.t :=
  session_with 3 None (Some 0%nat) {[ 0%nat := emission_with 1000 buffer_A ]}
    {| files := files_of "1000" buffer_A; watched := {[ Emission.listDir "out" "1000" "720p" ]} |}.

(** A handoff with a window of 2.  The draining Emission (address 0,
    created at 1000, stopped) still buffers its entries 4 and 5; the
    current one (address 1, created at 2000) has delivered its entry 0,
    each Emission numbering its segments from -start_number 0. *)
Definition buffer_X : list Snapshot :=
  [ snapshot "5" 4 "5.000000" "720p_0004.ts"; snapshot "5" 5 "5.000000" "720p_0005.ts" ].

Definition buffer_Y : list Snapshot := [ snapshot "5" 0 "5.000000" "720p_0000.ts" ].

Definition session_B : FileStreaming.t :=
  session_with 2 (Some 0%nat) (Some 1%nat)
    {[ 0%nat := Emission.stop (emission_with 1000 buffer_X);
       1%nat := emission_with 2000 buffer_Y ]}
    {| files := files_of "1000" buffer_X ∪ files_of "2000" buffer_Y;
       watched := {[ Emission.listDir "out" "1000" "720p"; Emission.listDir "out" "2000" "720p" ]} |}.

(** Every character of [s] is in the class. *)
Fixpoint all_chars (cls : ascii -> bool) (s : string) : bool :=
  match s with
  | EmptyString => true
  | String c s' => cls c && all_chars cls s'
  end.

(** [s] is empty or begins outside the class: a run of the class ends
    before it. *)
Definition ends_run (cls : ascii -> bool) (s : string) : bool :=
  match s with
  | EmptyString => true
  | String c _ => negb (cls c)
  end.

(** [l] and [s] agree as far as both go. *)
Fixpoint compatible (l s : string) : bool :=
  match l, s with
  | String a l', String b s' => Ascii.eqb a b && compatible l' s'
  | _, _ => true
  end.

(** The literal [l] cannot begin anywhere inside [u], whatever follows. *)
Fixpoint clear_of (l u : string) : bool :=
  match u with
  | EmptyString => true
  | String _ u' => negb (compatible l u) && clear_of l u'
  end.

(** The lines after the first of a joined text, each with the LF before
    it. *)
Fixpoint lines_tail (ls : list string) : string :=
  match ls with
  | [] => EmptyString
  | l :: tl => LF +:+ l +:+ lines_tail tl
  end.

(** A playlist line: not empty, no LF. *)
Definition line_text (s : string) : bool :=
  negb (String.eqb s EmptyString) && all_chars not_LF s.

(** An EXTINF duration as [readList] captures one: not empty, no LF, no
    comma. *)
Definition duration_text (s : string) : bool :=
  line_text s && all_chars not_comma s.

(** What the loop of [writeMasterList] appends for a segment whose URI is
    [uri]. *)
Definition entry_text (segment : Segment) (uri : string) : string :=
  "#EXTINF:" +:+ seg_duration segment +:+ "," +:+ LF +:+ uri.

Definition chunk_text (segment : Segment) (uri : string) : string :=
  (if seg_discontinuity segment then LF +:+ "#EXT-X-DISCONTINUITY" else EmptyString)
  +:+ LF +:+ entry_text segment uri.

Fixpoint chunks_text (entries : list (Segment * string)) : string :=
  match entries with
  | [] => EmptyString
  | (segment, uri) :: tl => chunk_text segment uri +:+ chunks_text tl
  end.

(** Neither LF nor '#': the characters of a printed number. *)
Definition plain (c : ascii) : bool := not_LF c && negb (Ascii.eqb c "#").

(** The text before the first entry, for the printed target duration
    [ds] and media sequence [ss]. *)
Definition header_text (ds ss : string) : string :=
  "#EXTM3U" +:+ LF +:+ "#EXT-X-VERSION:3" +:+ LF +:+ "#EXT-X-ALLOW-CACHE:YES" +:+ LF
  +:+ "#EXT-X-TARGETDURATION:" +:+ ds +:+ LF +:+ "#EXT-X-MEDIA-SEQUENCE:" +:+ ss.

(** A segment prints and parses back: its duration is as [readList]
    captures one, and the URI it is written under is a line. *)
Definition entry_ok (e : Segment * string) : Prop :=
  duration_text (seg_duration (fst e)) = true /\ line_text (snd e) = true.

(** The same, for the entries of a merged list under a resolver. *)
Definition printable (href : string -> string -> Completion string) (url : option string)
    (lst : list Item) : Prop :=
  Forall (fun l => duration_text (seg_duration (it_segment l)) = true
                   /\ forall uri, rewrite_file href url (seg_file (it_segment l)) = Normal uri ->
                                  line_text uri = true) lst.

(** A view of three entries, oldest first. *)
Definition oldest_A : Item :=
  {| it_emission := 0%nat; it_duration := "6"; it_sequence := Num 1;
     it_segment := {| seg_duration := "4"; seg_file := "720p_0001.ts";
                      seg_discontinuity := false |};
     it_origin := None |}.

Definition newer_A : list Item :=
  [ {| it_emission := 0%nat; it_duration := "6"; it_sequence := Num 2;
       it_segment := {| seg_duration := "4"; seg_file := "720p_0002.ts";
                        seg_discontinuity := false |};
       it_origin := None |};
    {| it_emission := 0%nat; it_duration := "6"; it_sequence := Num 3;
       it_segment := {| seg_duration := "4"; seg_file := "720p_0003.ts";
                        seg_discontinuity := false |};
       it_origin := None |} ].

Definition view_A : View :=
  {| v_duration := Num 6; v_sequence := Num 1;
     v_segments := map it_segment (oldest_A :: newer_A) |}.

(** The matches an expression admits at the head of a string, the
    backtracking search aside: a literal matches itself, a class run
    [cls+] any non-empty string of the class. *)
Inductive accepts : list Atom -> string -> Match -> Prop :=
| accepts_end (s : string) :
    accepts [] s {| matched := EmptyString; capture := None; rest := s |}
| accepts_lit (l : string) (p : list Atom) (s : string) (m : Match) :
    accepts p s m -> accepts (Lit l :: p) (l +:+ s) (cons_match l None m)
| accepts_plus (cls : ascii -> bool) (p : list Atom) (run s : string) (m : Match) :
    run <> EmptyString -> all_chars cls run = true -> accepts p s m ->
    accepts (Plus cls :: p) (run +:+ s) (cons_match run None m)
| accepts_group (cls : ascii -> bool) (p : list Atom) (run s : string) (m : Match) :
    run <> EmptyString -> all_chars cls run = true -> accepts p s m ->
    accepts (Group cls :: p) (run +:+ s) (cons_match run (Some run) m).

(** The shape of the module's expressions: every class run is followed by
    a literal that begins outside the class, or ends the expression. *)
Definition run_ends (cls : ascii -> bool) (p : list Atom) : bool :=
  match p with
  | [] => true
  | Lit (String a _) :: _ => negb (cls a)
  | _ => false
  end.

Fixpoint linear (p : list Atom) : bool :=
  match p with
  | [] => true
  | Lit _ :: p' => linear p'
  | Plus cls :: p' => run_ends cls p' && linear p'
  | Group cls :: p' => run_ends cls p' && linear p'
  end.

(** What happens to a session: a call of [emit], the signal that the
    engine playlist of rendition [res] of the Emission at [e] was written,
    a call of [stop]. *)
Inductive Event :=
| Emit (input : string) (now : N)
| SegmentWritten (e : nat) (res : string)
| Stop.

(** The session after an event; an exception the listener throws is lost
    to the session, the mutations made before it are not. *)
Definition step (href : string -> string -> Completion string)
    (s : FileStreaming.t) (ev : Event) : FileStreaming.t :=
  match ev with
  | Emit input now => fst (FileStreaming.emit s input now)
  | SegmentWritten e res => fst (FileStreaming.segmentWritten href s e res)
  | Stop => FileStreaming.stop s
  end.

Definition run (href : string -> string -> Completion string)
    (s : FileStreaming.t) (events : list Event) : FileStreaming.t :=
  fold_left (step href) events s.

(** One branch of [FileStreaming.stop] (lines 937-940, 941-944): the
    Emission a reference names is stopped and all it buffers disposed of. *)
Definition stop_one (s0 : FileStreaming.t) (ref : option nat) : FileStreaming.t :=
  match ref with
  | Some a =>
      match FileStreaming.heap s0 !! a with
      | Some e =>
          let e1 := Emission.stop e in
          FileStreaming.set_fs (FileStreaming.set_heap s0 (<[a := e1]> (FileStreaming.heap s0)))
            (Emission.disposeAll (FileStreaming.fs s0) e1)
      | None => s0
      end
  | None => s0
  end.

(** Nothing of what the Emission buffers is left in the file system: no
    engine playlist of a rendition, on disk or watched, and no segment file
    of a buffered entry. *)
Definition disposed (e : Emission.t) (fs : FileSystem) : Prop :=
  forall res items, Emission._list e !! res = Some items ->
    files fs !! Emission.listDir (Emission._dir e) (Emission._timestamp e) res = None
    /\ (Emission.listDir (Emission._dir e) (Emission._timestamp e) res ∉ watched fs)
    /\ forall item, In item items ->
         files fs !! path_join (Emission._dir e) (seg_file (sn_segment item)) = None.

(** Inversion of [accepts] on an expression given atom by atom. *)
Ltac invert_accepts :=
  repeat match goal with
         | H : accepts (_ :: _) _ _ |- _ => inversion H; subst; clear H
         | H : accepts [] _ _ |- _ => inversion H; subst; clear H
         end.

(** The value of a numeral read from its first digit on, [acc] being the
    value of the digits already read. *)
Fixpoint uval (d : Decimal.uint) (acc : N) : N :=
  match d with
  | Decimal.Nil => acc
  | Decimal.D0 l => uval l (10 * acc)
  | Decimal.D1 l => uval l (1 + 10 * acc)
  | Decimal.D2 l => uval l (2 + 10 * acc)
  | Decimal.D3 l => uval l (3 + 10 * acc)
  | Decimal.D4 l => uval l (4 + 10 * acc)
  | Decimal.D5 l => uval l (5 + 10 * acc)
  | Decimal.D6 l => uval l (6 + 10 * acc)
  | Decimal.D7 l => uval l (7 + 10 * acc)
  | Decimal.D8 l => uval l (8 + 10 * acc)
  | Decimal.D9 l => uval l (9 + 10 * acc)
  end.

(** Two Emissions created at 1000 and 2000 by the same session; the first
    is current and no handoff has begun. *)
Definition session_P : FileStreaming.t :=
  session_with 2 None (Some 0%nat)
    {[ 0%nat := emission_with 1000 buffer_X; 1%nat := emission_with 2000 buffer_Y ]}
    {| files := files_of "1000" buffer_X ∪ files_of "2000" buffer_Y;
       watched := {[ Emission.listDir "out" "1000" "720p"; Emission.listDir "out" "2000" "720p" ]} |}.

(** What the engine process of an Emission reports to the handlers [start]
    registers (lines 716-730): a chunk of its diagnostic stream, a spawn
    error, its end with an exit code. *)
Inductive EngineEvent :=
| StderrData (data : string)
| ProcessError (err : string)
| Close (code : Z).

Definition handle (e : Emission.t) (ev : EngineEvent) : Emission.t :=
  match ev with
  | StderrData data => Emission.on_stderr_data e data
  | ProcessError err => Emission.on_error e err
  | Close code => Emission.on_close e code
  end.

(** A chunk of the diagnostic stream in which the handler finds none of
    its phrases. *)
Definition quiet (ev : EngineEvent) : Prop :=
  match ev with
  | StderrData data =>
      find (fun error => includes (js_split data CRLF) error) Emission.knownErrors = None
  | _ => False
  end.

(** The notifications a run of chunks gives rise to: one for every chunk
    that arrives while a write has been announced. *)
Fixpoint announced (writting : bool) (chunks : list string) : nat :=
  match chunks with
  | [] => 0
  | msg :: tl =>
      (if writting then 1 else 0) + announced (str_includes msg EmissionV1.writing_notice) tl
  end.

(** A chunk with none of the phrases of the first revision. *)
Definition harmless (msg : string) : Prop :=
  find (fun err => str_includes msg err) EmissionV1.knownErrors = None.

(** A snapshot as [readList] returns them: texts that print on lines of
    their own, an integer sequence, no discontinuity flag. *)
Definition sound_snapshot (li : Snapshot) : Prop :=
  line_text (sn_duration li) = true
  /\ (exists n, sn_sequence li = Num (Z.of_N n))
  /\ duration_text (seg_duration (sn_segment li)) = true
  /\ line_text (seg_file (sn_segment li)) = true
  /\ seg_discontinuity (sn_segment li) = false.

(** Every buffer of the Emission holds such snapshots only. *)
Definition sound_buffers (e : Emission.t) : Prop :=
  forall r buf, Emission._list e !! r = Some buf -> Forall sound_snapshot buf.

(** A number the embedding holds exactly and prints as JavaScript does:
    NaN, or an integer of magnitude below 2^53. *)
Definition exact_number (x : Number) : Prop :=
  match x with
  | Num z => (- 2 ^ 53 < z < 2 ^ 53)%Z
  | NaN => True
  end.

(** The transcoder's side of a run: the engine of the Emission created at
    [timestamp] finishes the segment [file] of rendition [res].  The file
    is on disk and the engine playlist, kept at one entry by
    -hls_list_size 1, lists it. *)
Definition engine_writes (s : FileStreaming.t) (timestamp res : string)
    (targetduration sequence extinf file : string) : FileStreaming.t :=
  FileStreaming.set_fs s
    (writeFileSync
       (writeFileSync (FileStreaming.fs s) (path_join (FileStreaming._dir s) file) "ts")
       (Emission.listDir (FileStreaming._dir s) timestamp res)
       (engine_playlist targetduration sequence extinf file)).

(** The engine writes a segment and the watcher of its playlist fires:
    the session after the listener has run, and how the listener ended. *)
Definition delivers (s : FileStreaming.t) (e : nat) (timestamp res : string)
    (targetduration sequence extinf file : string) : FileStreaming.t * Completion unit :=
  FileStreaming.segmentWritten sample_href
    (engine_writes s timestamp res targetduration sequence extinf file) e res.

(** A session for 720p alone (mask 4, segments of 5 seconds, no base URL)
    as its constructor leaves it: no Emission, and master.m3u8 the only
    file of the folder. *)
Definition session_new (listSize : Z) : FileStreaming.t :=
  session_with listSize None None ∅
    {| files := {[ "out/master.m3u8" :=
                     join LF [ "#EXTM3U"; "#EXT-X-VERSION:3";
                               "#EXT-X-STREAM-INF:BANDWIDTH=2800000,RESOLUTION=1280x720";
                               "720p.m3u8" ] ]};
       watched := ∅ |}.

(** Its first [emit], at time 1000: the Emission is stored at address 0. *)
Definition first_emit (listSize : Z) : FileStreaming.t :=
  fst (FileStreaming.emit (session_new listSize) "a.mp4" 1000).

(** The session after the engine of that Emission has delivered its
    segments 0, then 1, then 2. *)
Definition live_1 (listSize : Z) : FileStreaming.t :=
  fst (delivers (first_emit listSize) 0 "1000" "720p" "5" "0" "5.000000" "720p_0000.ts").

Definition live_2 (listSize : Z) : FileStreaming.t :=
  fst (delivers (live_1 listSize) 0 "1000" "720p" "5" "1" "5.000000" "720p_0001.ts").

Definition live_3 (listSize : Z) : FileStreaming.t :=
  fst (delivers (live_2 listSize) 0 "1000" "720p" "5" "2" "5.000000" "720p_0002.ts").





(** * Properties *)

(** ** The renditions getter *)

(** C10. For every session, reading [renditions] throws a ReferenceError:
    the getter names [LiveStreaming], which is bound nowhere in the module. *)
Theorem renditions_always_throws (s : FileStreaming.t) :
  FileStreaming.renditions s = Throw (ReferenceError "LiveStreaming").
Proof. reflexivity. Qed.

(** ** The callback as written *)

Lemma promote_current (s : FileStreaming.t) (e : nat) :
  is_Some (FileStreaming._current (FileStreaming.promote s e)).
Proof.
  unfold FileStreaming.promote.
  destruct (FileStreaming._current s) as [c|] eqn:Hc; simpl; [|eauto].
  destruct (FileStreaming.heap s !! e), (FileStreaming.heap s !! c); try (rewrite Hc; eauto).
  destruct (_ && _); simpl; [eauto | rewrite Hc; eauto].
Qed.

(** X1. An Emission has no member [list] (its buffers are under [_list]), so
    both loops of the callback read a property of undefined: every call of
    the callback, after the promotion, throws a TypeError and leaves the
    live playlist unwritten. *)
Lemma onWrite_throws href (s : FileStreaming.t) (e : nat) (r : string) :
  exists what, FileStreaming.onWrite href s e r
               = (FileStreaming.promote s e, Throw (TypeError what)).
Proof.
  unfold FileStreaming.onWrite, FileStreaming.callback, FileStreaming.merge.
  destruct (promote_current s e) as [c Hc]. rewrite Hc.
  set (s1 := FileStreaming.promote s e) in *.
  change (Emission.get_list) with (fun _ : Emission.t => @None (gmap string (list Snapshot))).
  destruct (FileStreaming._last s1) as [l|]; simpl.
  - destruct (FileStreaming.heap s1 !! l); simpl; eauto.
  - destruct (FileStreaming.heap s1 !! c); simpl; eauto.
Qed.

(** ** Ingest of a segment-written signal *)

(** C5, as the code has it. The listener appends what it parses to the
    rendition's buffer whatever the buffer holds: when the engine playlist
    exists and [readList] returns [snapshot], the buffer becomes the old
    buffer followed by [snapshot].  No sequence number is compared. *)
Theorem on_change_appends (fs : FileSystem) (e : Emission.t) (res : string)
    (snapshot : Snapshot) (items : list Snapshot) :
  existsSync fs (Emission.listDir (Emission._dir e) (Emission._timestamp e) res) = true ->
  readList fs (Emission.listDir (Emission._dir e) (Emission._timestamp e) res) = Normal snapshot ->
  Emission._list e !! res = Some items ->
  Emission.on_change fs e res
  = Normal (Some (Emission.set_list e (<[res := items ++ [snapshot]]> (Emission._list e)))).
Proof.
  intros Hex Hread Hbuf. unfold Emission.on_change.
  rewrite Hex, Hread. simpl. now rewrite Hbuf.
Qed.

Lemma on_change_appends_witness :
  Emission.on_change sample_fs sample_emission "720p"
  = Normal (Some (Emission.set_list sample_emission
                    (<["720p" := [] ++ [sample_snapshot]]> (Emission._list sample_emission)))).
Proof.
  apply (on_change_appends sample_fs sample_emission "720p" sample_snapshot []);
    vm_compute; reflexivity.
Defined.

(** C5, as stated, fails: the same engine playlist signalled twice (the
    signal is at-least-once) leaves two entries with sequence number 7 in
    the 720p buffer. *)
Lemma duplicate_sequence_buffered :
  exists e1 e2,
    Emission.on_change sample_fs sample_emission "720p" = Normal (Some e1)
    /\ Emission.on_change sample_fs e1 "720p" = Normal (Some e2)
    /\ sequences e2 "720p" = [Num 7; Num 7].
Proof.
  eexists. eexists. split; [vm_compute; reflexivity |].
  split; vm_compute; reflexivity.
Qed.

(** ** Fatal phrases on the diagnostic stream *)

Lemma includes_In (a : list string) (x : string) : includes a x = true <-> In x a.
Proof.
  unfold includes. rewrite existsb_exists. split.
  - intros (y & Hy & Heq). apply String.eqb_eq in Heq. now subst.
  - intros H. exists x. split; [assumption | apply String.eqb_refl].
Qed.

(** C8, as the code has it. When a chunk of the diagnostic stream, cut at
    CR LF, has an element equal to one of the four phrases and the promise
    of [start] is still pending, the promise is rejected with such a
    phrase, a plain string.  That is all the handler does: the process and
    the buffers are as before. *)
Theorem stderr_phrase_rejects (e : Emission.t) (data error : string) :
  In error Emission.knownErrors ->
  In error (js_split data CRLF) ->
  Emission.promise e = Pending ->
  exists reason,
    In reason Emission.knownErrors
    /\ In reason (js_split data CRLF)
    /\ Emission.promise (Emission.on_stderr_data e data) = Rejected reason
    /\ Emission._process (Emission.on_stderr_data e data) = Emission._process e
    /\ Emission._list (Emission.on_stderr_data e data) = Emission._list e.
Proof.
  intros Hknown Hin Hpending. unfold Emission.on_stderr_data.
  destruct (find _ Emission.knownErrors) as [reason|] eqn:Hfind.
  - apply find_some in Hfind as [Hk Hi]. apply includes_In in Hi.
    exists reason. simpl. rewrite Hpending. auto.
  - exfalso. apply (find_none _ _ Hfind) in Hknown.
    apply includes_In in Hin. simpl in Hknown. congruence.
Qed.

Lemma stderr_phrase_rejects_witness :
  exists reason,
    In reason Emission.knownErrors
    /\ In reason (js_split ("in.mp4" +:+ CRLF +:+ "No such file or directory" +:+ CRLF) CRLF)
    /\ Emission.promise
         (Emission.on_stderr_data sample_emission
            ("in.mp4" +:+ CRLF +:+ "No such file or directory" +:+ CRLF))
       = Rejected reason
    /\ Emission._process
         (Emission.on_stderr_data sample_emission
            ("in.mp4" +:+ CRLF +:+ "No such file or directory" +:+ CRLF))
       = Emission._process sample_emission
    /\ Emission._list
         (Emission.on_stderr_data sample_emission
            ("in.mp4" +:+ CRLF +:+ "No such file or directory" +:+ CRLF))
       = Emission._list sample_emission.
Proof.
  apply (stderr_phrase_rejects sample_emission
           ("in.mp4" +:+ CRLF +:+ "No such file or directory" +:+ CRLF)
           "No such file or directory").
  - simpl. auto.
  - vm_compute. auto.
  - reflexivity.
Defined.

(** C8, as stated, fails.  A chunk that is exactly a fatal phrase rejects
    the promise, but the process is neither paused nor signalled, and the
    next signal of the engine playlist still buffers a segment.  And the
    phrase inside a line, as the engine prints it, does not reject. *)
Lemma fatal_phrase_neither_stops_nor_seals :
  Emission.promise (Emission.on_stderr_data sample_emission "No such file or directory")
  = Rejected "No such file or directory"
  /\ Emission._process (Emission.on_stderr_data sample_emission "No such file or directory")
     = Some {| stdin_paused := false; killed := false |}
  /\ (exists e2,
        Emission.on_change sample_fs
          (Emission.on_stderr_data sample_emission "No such file or directory") "720p"
        = Normal (Some e2)
        /\ sequences e2 "720p" = [Num 7])
  /\ str_includes ("in.mp4: No such file or directory" +:+ LF) "No such file or directory" = true
  /\ Emission.promise
       (Emission.on_stderr_data sample_emission ("in.mp4: No such file or directory" +:+ LF))
     = Pending.
Proof.
  split; [reflexivity |]. split; [reflexivity |].
  split; [eexists; split; vm_compute; reflexivity |].
  split; vm_compute; reflexivity.
Qed.

(** ** The view the callback writes *)

Lemma make_view_inv (tagged : list Item) (view : View) :
  FileStreaming.make_view tagged = Normal view ->
  tagged <> []
  /\ v_duration view = view_duration tagged
  /\ v_sequence view = default NaN (head (map it_sequence tagged))
  /\ v_segments view = map it_segment tagged.
Proof.
  unfold FileStreaming.make_view. destruct tagged as [|oldest tl]; [discriminate|].
  intros [= <-]. simpl. auto.
Qed.

(** ** Files and buffers *)

Lemma existsSync_false (f : FileSystem) (p : string) : existsSync f p = false -> files f !! p = None.
Proof.
  unfold existsSync. intros H. apply bool_decide_eq_false in H.
  destruct (files f !! p) eqn:E; [exfalso; apply H; eauto | reflexivity].
Qed.

(** Deleting a file if it is there leaves it absent. *)
Lemma unlink_if_exists (f : FileSystem) (p : string) :
  files (if existsSync f p then unlinkSync f p else f) !! p = None.
Proof.
  destruct (existsSync f p) eqn:E; simpl.
  - apply lookup_delete_eq.
  - now apply existsSync_false.
Qed.

Lemma unlink_if_exists_mono (f : FileSystem) (p q : string) :
  files f !! q = None -> files (if existsSync f p then unlinkSync f p else f) !! q = None.
Proof.
  intros H. destruct (existsSync f p); simpl; [|assumption].
  destruct (decide (p = q)) as [->|Hne]; [apply lookup_delete_eq | now rewrite lookup_delete_ne].
Qed.

Lemma unlink_if_exists_watched (f : FileSystem) (p : string) :
  watched (if existsSync f p then unlinkSync f p else f) = watched f.
Proof. destruct (existsSync f p); reflexivity. Qed.

Lemma buffer_lookup (s : FileStreaming.t) (a : nat) (r : string) (e : Emission.t)
    (buf : list Snapshot) :
  FileStreaming.heap s !! a = Some e -> Emission._list e !! r = Some buf ->
  FileStreaming.buffer s a r = buf.
Proof. intros H1 H2. unfold FileStreaming.buffer. now rewrite H1, H2. Qed.

(** ** Strings and the scanner *)

Lemma append_cons (x : ascii) (a b : string) : String x a +:+ b = String x (a +:+ b).
Proof. reflexivity. Qed.

Lemma append_nil_l (a : string) : "" +:+ a = a.
Proof. reflexivity. Qed.

Lemma append_assoc (a b c : string) : (a +:+ b) +:+ c = a +:+ b +:+ c.
Proof.
  induction a as [|x a IH]; [reflexivity|]. rewrite !append_cons. now f_equal.
Qed.

Lemma append_nil_r (a : string) : a +:+ "" = a.
Proof.
  induction a as [|x a IH]; [reflexivity|]. rewrite append_cons. now f_equal.
Qed.

Lemma drop_prefix_app (l s : string) : drop_prefix l (l +:+ s) = Some s.
Proof.
  induction l as [|a l IH]; [reflexivity|].
  rewrite append_cons. simpl. now rewrite Ascii.eqb_refl.
Qed.

Lemma drop_prefix_incompatible (l u rest : string) :
  compatible l u = false -> drop_prefix l (u +:+ rest) = None.
Proof.
  revert u. induction l as [|a l IH]; intros [|b u]; simpl; try discriminate.
  destruct (Ascii.eqb a b); simpl; [apply IH | reflexivity].
Qed.

Lemma span_app (cls : ascii -> bool) (u rest : string) :
  all_chars cls u = true -> ends_run cls rest = true -> span cls (u +:+ rest) = (u, rest).
Proof.
  intros Hu Hrest. induction u as [|c u IH].
  - rewrite append_nil_l. destruct rest as [|c rest]; [reflexivity|]. simpl in *.
    now destruct (cls c).
  - rewrite append_cons. simpl in *.
    apply andb_true_iff in Hu as [Hc Hu]. now rewrite Hc, IH.
Qed.

Lemma exec_skip (l : string) (p : list Atom) (u rest : string) :
  clear_of l u = true -> exec (Lit l :: p) (u +:+ rest) = exec (Lit l :: p) rest.
Proof.
  induction u as [|c u IH]; [reflexivity|].
  intros H. apply andb_true_iff in H as [Hc Hu]. apply negb_true_iff in Hc.
  change (exec (Lit l :: p) (String c u +:+ rest))
    with (match match_here (Lit l :: p) (String c u +:+ rest) with
          | Some m => Some m
          | None => exec (Lit l :: p) (u +:+ rest)
          end).
  cbn [match_here]. rewrite (drop_prefix_incompatible l (String c u) rest Hc). auto.
Qed.

Lemma match_all_skip (l : string) (p : list Atom) (u rest : string) :
  clear_of l u = true ->
  match_all_aux (Lit l :: p) 0 (u +:+ rest) = match_all_aux (Lit l :: p) 0 rest.
Proof.
  induction u as [|c u IH]; [reflexivity|].
  intros H. apply andb_true_iff in H as [Hc Hu]. apply negb_true_iff in Hc.
  change (match_all_aux (Lit l :: p) 0 (String c u +:+ rest))
    with (match match_here (Lit l :: p) (String c u +:+ rest) with
          | Some m => matched m
                      :: match_all_aux (Lit l :: p) (String.length (matched m) - 1) (u +:+ rest)
          | None => match_all_aux (Lit l :: p) 0 (u +:+ rest)
          end).
  cbn [match_here]. rewrite (drop_prefix_incompatible l (String c u) rest Hc). auto.
Qed.

Lemma match_all_pass (p : list Atom) (u rest : string) :
  match_all_aux p (String.length u) (u +:+ rest) = match_all_aux p 0 rest.
Proof. induction u as [|c u IH]; [reflexivity | exact IH]. Qed.

Lemma clear_of_chars (a : ascii) (l u : string) :
  all_chars (fun c => negb (Ascii.eqb a c)) u = true -> clear_of (String a l) u = true.
Proof.
  induction u as [|c u IH]; [reflexivity|]. simpl.
  intros H. apply andb_true_iff in H as [Hc Hu]. apply negb_true_iff in Hc.
  rewrite Hc. simpl. auto.
Qed.

Lemma all_chars_app (cls : ascii -> bool) (u v : string) :
  all_chars cls (u +:+ v) = all_chars cls u && all_chars cls v.
Proof.
  induction u as [|c u IH]; [reflexivity|].
  rewrite append_cons. simpl. now rewrite IH, andb_assoc.
Qed.

Lemma all_chars_weaken (P Q : ascii -> bool) (u : string) :
  (forall c, P c = true -> Q c = true) -> all_chars P u = true -> all_chars Q u = true.
Proof.
  intros HPQ. induction u as [|c u IH]; simpl; [reflexivity|].
  intros H. apply andb_true_iff in H as [Hc Hu]. now rewrite (HPQ c Hc), IH.
Qed.

(** Printed numbers. *)
Lemma string_of_uint_digits (d : Decimal.uint) :
  all_chars digit (NilEmpty.string_of_uint d) = true.
Proof. induction d; simpl; auto. Qed.

Lemma N_to_string_digits (n : N) : all_chars digit (N_to_string n) = true.
Proof. apply string_of_uint_digits. Qed.

Lemma N_to_string_nonempty (n : N) : N_to_string n <> "".
Proof.
  unfold N_to_string. destruct n as [|p]; [discriminate|].
  simpl. pose proof (DecimalPos.Unsigned.to_uint_nonnil p) as H.
  destruct (Pos.to_uint p); [congruence | discriminate..].
Qed.

Lemma digits_to_N_to_string (n : N) : digits_to_N (N_to_string n) = Some n.
Proof.
  unfold digits_to_N. pose proof (N_to_string_nonempty n) as Hne.
  destruct (N_to_string n) eqn:E; [congruence|]. rewrite <- E.
  unfold N_to_string. rewrite NilEmpty.usu. simpl.
  now rewrite DecimalN.Unsigned.of_to.
Qed.

Lemma ToNumber_to_string (n : N) : ToNumber (N_to_string n) = Num (Z.of_N n).
Proof. unfold ToNumber. now rewrite digits_to_N_to_string. Qed.

(** ** The text [writeMasterList] writes *)

Lemma join_lines (l : string) (ls : list string) : join LF (l :: ls) = l +:+ lines_tail ls.
Proof.
  revert l. induction ls as [|l2 tl IH]; intros l.
  - simpl. now rewrite append_nil_r.
  - change (join LF (l :: l2 :: tl)) with (l +:+ LF +:+ join LF (l2 :: tl)).
    now rewrite IH.
Qed.

Lemma lines_tail_app (a b : list string) :
  lines_tail (a ++ b) = lines_tail a +:+ lines_tail b.
Proof.
  induction a as [|l a IH]; [reflexivity|].
  simpl. now rewrite IH, !append_assoc.
Qed.

(** The body lines are one chunk per segment, with the URI each segment
    was given. *)
Lemma segments_lines_chunks href (url : option string) (segments : list Segment)
    (body : list string) :
  segments_lines href url segments = Normal body ->
  exists entries,
    map fst entries = segments
    /\ Forall (fun e => rewrite_file href url (seg_file (fst e)) = Normal (snd e)) entries
    /\ lines_tail body = chunks_text entries.
Proof.
  revert body. induction segments as [|segment tl IH]; intros body; simpl.
  - intros [= <-]. exists []. auto.
  - unfold segment_lines.
    destruct (rewrite_file href url (seg_file segment)) as [uri|] eqn:Huri; [|discriminate].
    simpl. destruct (segments_lines href url tl) as [body'|]; [|discriminate].
    simpl. intros [= <-].
    destruct (IH body' eq_refl) as (entries & Hfst & Hall & Htext).
    exists ((segment, uri) :: entries). split; [simpl; now rewrite Hfst|].
    split; [constructor; assumption|].
    rewrite lines_tail_app, Htext. simpl. unfold chunk_text, entry_text.
    destruct (seg_discontinuity segment); simpl; now rewrite ?append_assoc.
Qed.

Lemma chunks_text_ends_run (entries : list (Segment * string)) :
  ends_run not_LF (chunks_text entries) = true /\ ends_run digit (chunks_text entries) = true.
Proof.
  destruct entries as [|[segment uri] tl]; [auto|].
  simpl. unfold chunk_text. destruct (seg_discontinuity segment); auto.
Qed.

Lemma chunks_text_starts (e : Segment * string) (tl : list (Segment * string)) :
  exists rest, chunks_text (e :: tl) = LF +:+ rest.
Proof.
  destruct e as [segment uri]. simpl. unfold chunk_text.
  destruct (seg_discontinuity segment); rewrite ?append_assoc; eauto.
Qed.

Lemma line_text_inv (s : string) :
  line_text s = true -> s <> "" /\ all_chars not_LF s = true.
Proof.
  unfold line_text. intros H. apply andb_true_iff in H as [H1 H2].
  split; [|assumption]. intros ->. discriminate.
Qed.

Lemma nonempty_cons (s : string) : s <> "" -> exists c s', s = String c s'.
Proof. destruct s; [congruence | eauto]. Qed.

(** The entry expression matches a whole entry of the written text. *)
Lemma match_entry (segment : Segment) (uri rest : string) :
  all_chars not_LF (seg_duration segment) = true ->
  line_text uri = true ->
  ends_run not_LF rest = true ->
  match_here re_entry (entry_text segment uri +:+ rest)
  = Some {| matched := entry_text segment uri; capture := None; rest := rest |}.
Proof.
  intros Hd Huri Hrest. apply line_text_inv in Huri as [Hne Huri].
  unfold entry_text, re_entry. rewrite !append_assoc. cbn [match_here].
  rewrite drop_prefix_app.
  rewrite <- (append_assoc (seg_duration segment) ","), (span_app not_LF); cycle 1.
  { rewrite all_chars_app, Hd. reflexivity. }
  { reflexivity. }
  destruct (seg_duration segment +:+ ",") as [|c0 run] eqn:Hrun.
  { destruct (seg_duration segment); discriminate. }
  change (LF +:+ uri +:+ rest) with (String LF_char (uri +:+ rest)).
  cbn [drop_prefix LF]. rewrite Ascii.eqb_refl.
  rewrite (span_app not_LF uri rest Huri Hrest).
  destruct (nonempty_cons uri Hne) as (c1 & uri' & ->).
  unfold cons_match. cbn [option_map matched capture Regex.rest].
  rewrite append_nil_r, <- Hrun, !append_assoc. reflexivity.
Qed.

Lemma duration_text_inv (d : string) :
  duration_text d = true ->
  d <> "" /\ all_chars not_LF d = true /\ all_chars not_comma d = true.
Proof.
  unfold duration_text. intros H. apply andb_true_iff in H as [H1 H2].
  apply line_text_inv in H1 as [H0 H1]. auto.
Qed.

(** Every entry of the written body is found, in order. *)
Lemma match_all_chunks (entries : list (Segment * string)) :
  Forall entry_ok entries ->
  match_all_aux re_entry 0 (chunks_text entries)
  = map (fun e => entry_text (fst e) (snd e)) entries.
Proof.
  induction 1 as [|[segment uri] tl [Hd Huri] _ IH]; [reflexivity|].
  apply duration_text_inv in Hd as (_ & Hd & _).
  cbn [chunks_text map fst snd]. unfold chunk_text. rewrite !append_assoc.
  assert (Hskip : match_all_aux re_entry 0
                    (entry_text segment uri +:+ chunks_text tl)
                  = entry_text segment uri :: match_all_aux re_entry 0 (chunks_text tl)).
  { pose proof (match_entry segment uri (chunks_text tl) Hd Huri
                  (proj1 (chunks_text_ends_run tl))) as Hm.
    unfold entry_text in *. rewrite !append_assoc in *.
    change ("#EXTINF:" +:+ ?x) with (String "#" ("EXTINF:" +:+ x)) in *.
    cbn [match_all_aux]. rewrite Hm. cbn [matched]. f_equal.
    change (String.length
              (String "#" ("EXTINF:" +:+ seg_duration segment +:+ "," +:+ LF +:+ uri)) - 1)%nat
      with (String.length ("EXTINF:" +:+ seg_duration segment +:+ "," +:+ LF +:+ uri)).
    rewrite <- (match_all_pass re_entry
                  ("EXTINF:" +:+ seg_duration segment +:+ "," +:+ LF +:+ uri) (chunks_text tl)).
    now rewrite !append_assoc. }
  rewrite <- IH, <- Hskip.
  destruct (seg_discontinuity segment).
  - rewrite <- !append_assoc.
    rewrite (append_assoc (LF +:+ "#EXT-X-DISCONTINUITY") LF), !append_assoc.
    rewrite <- (append_assoc LF "#EXT-X-DISCONTINUITY"), <- (append_assoc _ LF).
    apply (match_all_skip "#EXTINF:"). vm_compute. reflexivity.
  - rewrite append_nil_l. apply (match_all_skip "#EXTINF:" _ LF). vm_compute. reflexivity.
Qed.

(** The two expressions applied to an entry give back its duration and
    its URI. *)
Lemma exec_entry_duration (segment : Segment) (uri : string) :
  duration_text (seg_duration segment) = true ->
  match1 re_entry_duration (entry_text segment uri) "segment.duration"
  = Normal (seg_duration segment).
Proof.
  intros H. apply duration_text_inv in H as (Hne & _ & Hc).
  unfold match1, entry_text, re_entry_duration.
  change ("#EXTINF:" +:+ ?x) with (String "#" ("EXTINF:" +:+ x)).
  cbn [exec]. change (String "#" ("EXTINF:" +:+ ?x)) with ("#EXTINF:" +:+ x).
  cbn [match_here]. rewrite drop_prefix_app.
  rewrite (span_app not_comma (seg_duration segment)); [|assumption|reflexivity].
  destruct (nonempty_cons _ Hne) as (c & d' & Hd). rewrite Hd.
  rewrite <- append_assoc, drop_prefix_app. reflexivity.
Qed.

Lemma exec_entry_file (segment : Segment) (uri : string) :
  all_chars not_LF (seg_duration segment) = true ->
  line_text uri = true ->
  match1 re_entry_file (entry_text segment uri) "segment.file" = Normal uri.
Proof.
  intros Hd Huri. apply line_text_inv in Huri as [Hne Huri].
  unfold match1, entry_text, re_entry_file.
  change ("#EXTINF:" +:+ ?x) with (String "#" ("EXTINF:" +:+ x)).
  cbn [exec]. change (String "#" ("EXTINF:" +:+ ?x)) with ("#EXTINF:" +:+ x).
  cbn [match_here]. rewrite drop_prefix_app.
  rewrite <- (append_assoc (seg_duration segment) ","), (span_app not_LF); cycle 1.
  { rewrite all_chars_app, Hd. reflexivity. }
  { reflexivity. }
  destruct (seg_duration segment +:+ ",") as [|c0 run] eqn:Hrun.
  { destruct (seg_duration segment); discriminate. }
  change (LF +:+ uri) with (String LF_char uri).
  cbn [drop_prefix LF]. rewrite Ascii.eqb_refl.
  rewrite <- (append_nil_r uri) at 1. rewrite (span_app not_LF uri "" Huri eq_refl).
  destruct (nonempty_cons uri Hne) as (c1 & uri' & ->). reflexivity.
Qed.

Lemma digit_plain (c : ascii) : digit c = true -> plain c = true.
Proof.
  destruct c as [[] [] [] [] [] [] [] []]; vm_compute; intros H; first [reflexivity | discriminate].
Qed.

Lemma plain_not_LF (c : ascii) : plain c = true -> not_LF c = true.
Proof. unfold plain. intros H. now apply andb_true_iff in H as [H _]. Qed.

Lemma plain_not_hash (c : ascii) : plain c = true -> negb (Ascii.eqb "#" c) = true.
Proof.
  unfold plain. intros H. apply andb_true_iff in H as [_ H].
  now rewrite Ascii.eqb_sym.
Qed.

Lemma NumberToString_plain (x : Number) :
  all_chars plain (NumberToString x) = true /\ NumberToString x <> "".
Proof.
  destruct x as [z|]; simpl; [|split; [reflexivity | discriminate]].
  destruct (z <? 0)%Z.
  - split; [|discriminate]. rewrite append_cons, append_nil_l. simpl.
    apply (all_chars_weaken digit); [apply digit_plain | apply N_to_string_digits].
  - split; [|apply N_to_string_nonempty].
    apply (all_chars_weaken digit); [apply digit_plain | apply N_to_string_digits].
Qed.

Lemma exec_here (p : list Atom) (s : string) (m : Match) :
  match_here p s = Some m -> exec p s = Some m.
Proof. intros H. destruct s; simpl; now rewrite H. Qed.

(** The three scans of [readList] over a written text. *)
Lemma scan_targetduration (ds ss rest : string) :
  all_chars plain ds = true -> ds <> "" ->
  match1 re_targetduration (header_text ds ss +:+ rest) "duration" = Normal ds.
Proof.
  intros Hds Hne. unfold match1, header_text, re_targetduration.
  rewrite !append_assoc.
  change ("#EXT-X-TARGETDURATION:" +:+ ?x) with ("#" +:+ "EXT-X-TARGETDURATION:" +:+ x).
  rewrite <- !(append_assoc _ _ ("EXT-X-TARGETDURATION:" +:+ _)).
  rewrite exec_skip by (vm_compute; reflexivity).
  erewrite exec_here; cycle 1.
  { cbn [match_here]. rewrite drop_prefix_app.
    rewrite (span_app not_LF ds);
      [| apply (all_chars_weaken plain); [apply plain_not_LF | assumption] | reflexivity].
    destruct (nonempty_cons ds Hne) as (c & ds' & ->).
    change (LF +:+ ?x) with (String LF_char x). cbn [drop_prefix LF].
    rewrite Ascii.eqb_refl. reflexivity. }
  reflexivity.
Qed.

Lemma scan_media_sequence (ds : string) (n : N) (e : Segment * string)
    (entries : list (Segment * string)) :
  all_chars plain ds = true ->
  match1 re_media_sequence (header_text ds (N_to_string n) +:+ chunks_text (e :: entries))
         "sequence"
  = Normal (N_to_string n).
Proof.
  intros Hds. unfold match1, header_text, re_media_sequence.
  rewrite !append_assoc.
  rewrite <- !(append_assoc _ _ (ds +:+ _)).
  rewrite exec_skip by (vm_compute; reflexivity).
  rewrite exec_skip
    by (apply clear_of_chars, (all_chars_weaken plain); [apply plain_not_hash | assumption]).
  rewrite exec_skip by (vm_compute; reflexivity).
  destruct (chunks_text_starts e entries) as (rest & Hrest).
  destruct (nonempty_cons _ (N_to_string_nonempty n)) as (c & s' & Hs).
  erewrite exec_here; cycle 1.
  { cbn [match_here]. rewrite drop_prefix_app.
    rewrite (span_app digit (N_to_string n));
      [| apply N_to_string_digits | apply chunks_text_ends_run].
    rewrite Hs, Hrest. change (LF +:+ ?x) with (String LF_char x). cbn [drop_prefix LF].
    rewrite Ascii.eqb_refl. reflexivity. }
  cbn [capture cons_match option_map]. now rewrite <- Hs.
Qed.

Lemma scan_entries (ds ss : string) (entries : list (Segment * string)) :
  all_chars plain ds = true -> all_chars plain ss = true ->
  Forall entry_ok entries ->
  match_all re_entry (header_text ds ss +:+ chunks_text entries)
  = map (fun e => entry_text (fst e) (snd e)) entries.
Proof.
  intros Hds Hss Hok. unfold match_all, header_text, re_entry.
  rewrite !append_assoc.
  rewrite <- !(append_assoc _ _ (ds +:+ _)).
  rewrite match_all_skip by (vm_compute; reflexivity).
  rewrite match_all_skip
    by (apply clear_of_chars, (all_chars_weaken plain); [apply plain_not_hash | assumption]).
  rewrite <- !(append_assoc _ _ (ss +:+ _)).
  rewrite match_all_skip by (vm_compute; reflexivity).
  rewrite match_all_skip
    by (apply clear_of_chars, (all_chars_weaken plain); [apply plain_not_hash | assumption]).
  now apply match_all_chunks.
Qed.

Lemma exists_last_entry {A} (l : list A) : l <> [] -> exists init x, l = init ++ [x].
Proof.
  intros H. destruct (exists_last H) as (init & x & ->). eauto.
Qed.

Lemma serialize_text href (url : option string) (view : View) (text : string) :
  serialize href url view = Normal text ->
  exists entries,
    map fst entries = v_segments view
    /\ Forall (fun e => rewrite_file href url (seg_file (fst e)) = Normal (snd e)) entries
    /\ text = header_text (NumberToString (v_duration view)) (NumberToString (v_sequence view))
              +:+ chunks_text entries.
Proof.
  intros Hser.
  destruct (segments_lines href url (v_segments view)) as [body|] eqn:Hbody;
    [|unfold serialize in Hser; rewrite Hbody in Hser; discriminate].
  destruct (segments_lines_chunks _ _ _ _ Hbody) as (entries & Hfst & Hall & Htext).
  exists entries. split; [assumption|]. split; [assumption|].
  assert (Htxt : text
                 = join LF ("#EXTM3U"
                            :: ([ "#EXT-X-VERSION:3"; "#EXT-X-ALLOW-CACHE:YES";
                                  "#EXT-X-TARGETDURATION:" +:+ NumberToString (v_duration view);
                                  "#EXT-X-MEDIA-SEQUENCE:" +:+ NumberToString (v_sequence view) ]
                                ++ body))).
  { unfold serialize in Hser. rewrite Hbody in Hser. injection Hser as <-. reflexivity. }
  rewrite Htxt, join_lines, lines_tail_app, Htext. unfold header_text. cbn [lines_tail].
  rewrite !append_assoc, append_nil_l. reflexivity.
Qed.

(** What [readList] makes of a playlist [writeMasterList] wrote: the
    printed target duration, the media sequence, and the last entry. *)
Lemma readList_written href (fs fs' : FileSystem) (fileDir : string) (url : option string)
    (view : View) (z : Z) :
  v_sequence view = Num z -> (0 <= z)%Z ->
  v_segments view <> [] ->
  Forall (fun segment =>
            duration_text (seg_duration segment) = true
            /\ forall uri, rewrite_file href url (seg_file segment) = Normal uri ->
                           line_text uri = true) (v_segments view) ->
  writeMasterList href fs fileDir url view = Normal fs' ->
  exists segment uri,
    last (v_segments view) = Some segment
    /\ rewrite_file href url (seg_file segment) = Normal uri
    /\ readList fs' fileDir
       = Normal {| sn_duration := NumberToString (v_duration view);
                   sn_sequence := v_sequence view;
                   sn_segment := {| seg_duration := seg_duration segment;
                                    seg_file := uri;
                                    seg_discontinuity := false |} |}.
Proof.
  intros Hseq Hz Hne Hok. unfold writeMasterList.
  destruct (serialize href url view) as [text|] eqn:Hser; [|discriminate].
  simpl. intros [= <-].
  destruct (serialize_text _ _ _ _ Hser) as (entries & Hfst & Hall & ->).
  assert (Hentries : Forall entry_ok entries).
  { rewrite <- Hfst in Hok. clear Hfst Hne Hser.
    induction entries as [|e tl IH]; [constructor|].
    cbn [map] in Hok. apply Forall_cons in Hok as [[Hd Hu] Hok].
    apply Forall_cons in Hall as [He Hall].
    constructor; [split; [exact Hd | now apply Hu] | now apply IH]. }
  destruct (NumberToString_plain (v_duration view)) as [Hdp Hdne].
  destruct (NumberToString_plain (v_sequence view)) as [Hsp Hsne].
  destruct (exists_last_entry entries) as (init & [segment uri] & Hlast).
  { intros ->. simpl in Hfst. congruence. }
  exists segment, uri.
  assert (Hin : entry_ok (segment, uri)
                /\ rewrite_file href url (seg_file segment) = Normal uri).
  { rewrite Hlast in Hentries, Hall.
    apply Forall_app in Hentries as [_ He]. apply Forall_app in Hall as [_ Ha].
    apply Forall_cons in He as [He _]. apply Forall_cons in Ha as [Ha _]. auto. }
  destruct Hin as [[Hd Hu] Hrw].
  split; [rewrite <- Hfst, Hlast, List.map_app; apply last_snoc|]. split; [exact Hrw|].
  unfold readList. cbn [files writeFileSync]. rewrite lookup_insert_eq.
  rewrite (scan_entries _ _ _ Hdp Hsp Hentries), Hlast, List.map_app.
  cbn [map fst snd]. rewrite last_snoc.
  rewrite (scan_targetduration _ _ _ Hdp Hdne). cbn [bind].
  rewrite <- Hlast.
  assert (Hss : NumberToString (v_sequence view) = N_to_string (Z.to_N z)).
  { rewrite Hseq. simpl. destruct (Z.ltb_spec z 0); [lia | reflexivity]. }
  destruct entries as [|e0 entries']; [destruct init; discriminate|].
  rewrite Hss, (scan_media_sequence _ _ _ _ Hdp). cbn [bind].
  rewrite (exec_entry_duration segment uri Hd). cbn [bind].
  apply duration_text_inv in Hd as (_ & Hd & _).
  rewrite (exec_entry_file segment uri Hd Hu). cbn [bind].
  rewrite ToNumber_to_string, Hseq, Z2N.id by assumption. reflexivity.
Qed.

(** ** The media sequence through the codec *)

(** C7. For a non-empty view whose oldest entry carries a media sequence
    that is a non-negative integer below 2^53, and whose entries print as
    lines, [readList] applied to the playlist [writeMasterList] wrote
    returns, and its [sequence] is the sequence number of the oldest
    entry. *)
Theorem media_sequence_round_trip href (fs fs' : FileSystem) (fileDir : string)
    (url : option string) (oldest : Item) (newer : list Item) (view : View) (z : Z) :
  it_sequence oldest = Num z ->
  (0 <= z < 2 ^ 53)%Z ->
  printable href url (oldest :: newer) ->
  FileStreaming.make_view (oldest :: newer) = Normal view ->
  writeMasterList href fs fileDir url view = Normal fs' ->
  exists snapshot,
    readList fs' fileDir = Normal snapshot
    /\ sn_sequence snapshot = it_sequence oldest.
Proof.
  intros Hseq [Hz _] Hprint Hview Hwrite.
  apply make_view_inv in Hview as (_ & _ & Hvs & Hsegs).
  simpl in Hvs.
  destruct (readList_written href fs fs' fileDir url view z) as (segment & uri & _ & _ & Hread);
    try assumption.
  - congruence.
  - rewrite Hsegs. discriminate.
  - rewrite Hsegs. apply Forall_fmap. exact Hprint.
  - eexists. split; [exact Hread|]. simpl. exact Hvs.
Qed.

Lemma printable_A : printable sample_href None (oldest_A :: newer_A).
Proof.
  unfold printable, oldest_A, newer_A.
  repeat (constructor; [split; [reflexivity | intros uri [= <-]; reflexivity] |]).
  constructor.
Qed.

Lemma media_sequence_round_trip_witness :
  exists snapshot,
    readList (writeFileSync {| files := ∅; watched := ∅ |} "out/720p.m3u8"
                (join LF [ "#EXTM3U"; "#EXT-X-VERSION:3"; "#EXT-X-ALLOW-CACHE:YES";
                           "#EXT-X-TARGETDURATION:6"; "#EXT-X-MEDIA-SEQUENCE:1";
                           "#EXTINF:4,"; "720p_0001.ts";
                           "#EXTINF:4,"; "720p_0002.ts";
                           "#EXTINF:4,"; "720p_0003.ts" ]))
             "out/720p.m3u8" = Normal snapshot
    /\ sn_sequence snapshot = it_sequence oldest_A.
Proof.
  apply (media_sequence_round_trip sample_href {| files := ∅; watched := ∅ |} _
           "out/720p.m3u8" None oldest_A newer_A view_A 1).
  - reflexivity.
  - lia.
  - exact printable_A.
  - reflexivity.
  - reflexivity.
Defined.

(** ** The scanner against the backtracking reading *)

Lemma drop_prefix_inv (l s tl : string) : drop_prefix l s = Some tl -> s = l +:+ tl.
Proof.
  revert s. induction l as [|a l IH]; intros s; simpl.
  - now intros [= ->].
  - destruct s as [|b s]; [discriminate|].
    destruct (Ascii.eqb_spec a b) as [->|]; [|discriminate].
    intros H. rewrite append_cons. f_equal. now apply IH.
Qed.

Lemma span_inv (cls : ascii -> bool) (s run tl : string) :
  span cls s = (run, tl) ->
  s = run +:+ tl /\ all_chars cls run = true /\ ends_run cls tl = true.
Proof.
  revert run. induction s as [|c s IH]; intros run; simpl.
  - intros [= <- <-]. auto.
  - destruct (cls c) eqn:Hc.
    + destruct (span cls s) as [run' tl'] eqn:Hs. intros [= <- <-].
      destruct (IH run' eq_refl) as (-> & Hall & Hend).
      rewrite append_cons. simpl. rewrite Hc. auto.
    + intros [= <- <-]. simpl. rewrite Hc. auto.
Qed.

Lemma span_app_all (cls : ascii -> bool) (u v : string) :
  all_chars cls u = true ->
  span cls (u +:+ v) = (u +:+ fst (span cls v), snd (span cls v)).
Proof.
  intros Hu. induction u as [|c u IH].
  - rewrite !append_nil_l. now destruct (span cls v).
  - simpl in Hu. apply andb_true_iff in Hu as [Hc Hu].
    rewrite append_cons. simpl. rewrite Hc, (IH Hu). now rewrite append_cons.
Qed.

(** What [match_here] returns is a match the expression admits. *)
Lemma match_here_accepts (p : list Atom) (s : string) (m : Match) :
  match_here p s = Some m -> accepts p s m.
Proof.
  revert s m. induction p as [|[l|cls|cls] p IH]; intros s m; simpl.
  - intros [= <-]. constructor.
  - destruct (drop_prefix l s) as [tl|] eqn:Hl; [|discriminate].
    apply drop_prefix_inv in Hl as ->.
    destruct (match_here p tl) as [m0|] eqn:Hm; [|discriminate].
    intros [= <-]. constructor. now apply IH.
  - destruct (span cls s) as [run tl] eqn:Hs.
    apply span_inv in Hs as (-> & Hall & _).
    destruct run as [|c run]; [discriminate|].
    destruct (match_here p tl) as [m0|] eqn:Hm; [|discriminate].
    intros [= <-]. constructor; [discriminate | assumption | now apply IH].
  - destruct (span cls s) as [run tl] eqn:Hs.
    apply span_inv in Hs as (-> & Hall & _).
    destruct run as [|c run]; [discriminate|].
    destruct (match_here p tl) as [m0|] eqn:Hm; [|discriminate].
    intros [= <-]. constructor; [discriminate | assumption | now apply IH].
Qed.

Lemma run_ends_accepts (cls : ascii -> bool) (p : list Atom) (s : string) (m : Match) :
  run_ends cls p = true -> accepts p s m ->
  p = [] \/ ends_run cls s = true.
Proof.
  destruct p as [|[[|a l]|?|?] p]; try discriminate; [auto|].
  intros Ha H. right. inversion H; subst. rewrite append_cons. exact Ha.
Qed.

(** On a linear expression, whatever match the expression admits,
    [match_here] finds one, and the same one up to the length of a last
    class run, of which it takes the longest: the choice the greedy
    search makes first. *)
Lemma accepts_match_here (p : list Atom) (s : string) (m' : Match) :
  linear p = true -> accepts p s m' ->
  exists m more,
    match_here p s = Some m
    /\ matched m = matched m' +:+ more
    /\ rest m' = more +:+ rest m
    /\ (more = "" -> m = m').
Proof.
  intros Hlin Hacc. induction Hacc as [s|l p s m' Hacc IH|cls p run s m' Hne Hall Hacc IH
                                       |cls p run s m' Hne Hall Hacc IH].
  - exists {| matched := ""; capture := None; rest := s |}, "". simpl. auto.
  - simpl in Hlin. destruct (IH Hlin) as (m & more & Hm & Hmat & Hrest & Heq).
    exists (cons_match l None m), more. simpl. rewrite drop_prefix_app, Hm. simpl.
    split; [reflexivity|]. split; [now rewrite Hmat, append_assoc|].
    split; [exact Hrest|]. intros Hmore. now rewrite (Heq Hmore).
  - simpl in Hlin. apply andb_true_iff in Hlin as [Hends Hlin].
    destruct (IH Hlin) as (m & more & Hm & Hmat & Hrest & Heq).
    destruct (run_ends_accepts cls p s m' Hends Hacc) as [->|Hend].
    + inversion Hacc; subst. simpl in Hm. injection Hm as <-.
      destruct (span cls s) as [ext tl] eqn:Hs.
      pose proof (span_inv _ _ _ _ Hs) as (-> & _ & _).
      exists (cons_match (run +:+ ext) None {| matched := ""; capture := None; rest := tl |}), ext.
      cbn [match_here]. rewrite (span_app_all cls run _ Hall), Hs. cbn [fst snd].
      destruct (run +:+ ext) as [|c0 r0] eqn:Hr.
      { destruct run; [congruence | discriminate]. }
      split; [reflexivity|]. simpl. rewrite !append_nil_r.
      split; [now rewrite <- Hr|]. split; [reflexivity|].
      intros ->. rewrite append_nil_r in Hr. rewrite <- Hr.
      unfold cons_match. simpl. now rewrite append_nil_l.
    + exists (cons_match run None m), more.
      cbn [match_here]. rewrite (span_app cls run s Hall Hend).
      destruct run as [|c0 r0]; [congruence|]. rewrite Hm. simpl.
      split; [reflexivity|]. split; [now rewrite Hmat, append_assoc|].
      split; [exact Hrest|]. intros Hmore. now rewrite (Heq Hmore).
  - simpl in Hlin. apply andb_true_iff in Hlin as [Hends Hlin].
    destruct (IH Hlin) as (m & more & Hm & Hmat & Hrest & Heq).
    destruct (run_ends_accepts cls p s m' Hends Hacc) as [->|Hend].
    + inversion Hacc; subst. simpl in Hm. injection Hm as <-.
      destruct (span cls s) as [ext tl] eqn:Hs.
      pose proof (span_inv _ _ _ _ Hs) as (-> & _ & _).
      exists (cons_match (run +:+ ext) (Some (run +:+ ext))
                {| matched := ""; capture := None; rest := tl |}), ext.
      cbn [match_here]. rewrite (span_app_all cls run _ Hall), Hs. cbn [fst snd].
      destruct (run +:+ ext) as [|c0 r0] eqn:Hr.
      { destruct run; [congruence | discriminate]. }
      split; [reflexivity|]. simpl. rewrite !append_nil_r.
      split; [now rewrite <- Hr|]. split; [reflexivity|].
      intros ->. rewrite append_nil_r in Hr. rewrite <- Hr.
      unfold cons_match. simpl. now rewrite append_nil_l.
    + exists (cons_match run (Some run) m), more.
      cbn [match_here]. rewrite (span_app cls run s Hall Hend).
      destruct run as [|c0 r0]; [congruence|]. rewrite Hm. simpl.
      split; [reflexivity|]. split; [now rewrite Hmat, append_assoc|].
      split; [exact Hrest|]. intros Hmore. now rewrite (Heq Hmore).
Qed.

(** The five expressions of [readList] are linear. *)
Lemma readList_expressions_linear :
  linear re_entry = true /\ linear re_targetduration = true
  /\ linear re_media_sequence = true /\ linear re_entry_duration = true
  /\ linear re_entry_file = true.
Proof. repeat split; reflexivity. Qed.

(** ** The playlist codec, both ways *)

Lemma exec_inv (p : list Atom) (s : string) (m : Match) :
  exec p s = Some m -> exists pre suf, s = pre +:+ suf /\ match_here p suf = Some m.
Proof.
  induction s as [|c s IH]; simpl.
  - destruct (match_here p "") as [m0|] eqn:Hm; [|discriminate].
    intros [= <-]. exists "", "". auto.
  - destruct (match_here p (String c s)) as [m0|] eqn:Hm.
    + intros [= <-]. exists "", (String c s). auto.
    + intros H. destruct (IH H) as (pre & suf & -> & Hs).
      exists (String c pre), suf. auto.
Qed.

Lemma match1_inv (re : list Atom) (s what c : string) :
  match1 re s what = Normal c ->
  exists pre suf m, s = pre +:+ suf /\ match_here re suf = Some m /\ capture m = Some c.
Proof.
  unfold match1. destruct (exec re s) as [m|] eqn:He; [|discriminate].
  destruct (capture m) as [c0|] eqn:Hc; [|discriminate]. intros [= <-].
  apply exec_inv in He as (pre & suf & -> & Hm). eauto 6.
Qed.

Lemma match_all_aux_inv (p : list Atom) (s : string) (skip : nat) (x : string) :
  In x (match_all_aux p skip s) ->
  exists suf m, match_here p suf = Some m /\ matched m = x.
Proof.
  revert skip. induction s as [|c s IH]; intros skip; simpl; [tauto|].
  destruct skip as [|k]; [|apply IH].
  destruct (match_here p (String c s)) as [m|] eqn:Hm.
  - intros [<-|H]; [eauto | eapply IH, H].
  - apply IH.
Qed.

Lemma prefix_drop_prefix (l s : string) : String.prefix l s = false -> drop_prefix l s = None.
Proof.
  revert s. induction l as [|a l IH]; intros [|b s]; simpl; try discriminate; [reflexivity|].
  destruct (Ascii.eqb_spec a b) as [->|Hab].
  - destruct (ascii_dec b b); [apply IH | congruence].
  - reflexivity.
Qed.

Lemma match_all_absent (l : string) (p : list Atom) (s : string) :
  str_includes s l = false -> match_all_aux (Lit l :: p) 0 s = [].
Proof.
  induction s as [|c s IH]; [reflexivity|].
  cbn [str_includes]. intros H. apply orb_false_iff in H as [Hp Hs].
  cbn [match_all_aux match_here]. rewrite (prefix_drop_prefix _ _ Hp). auto.
Qed.

(** X2. A playlist in which '#EXTINF:' does not occur (the header alone,
    before the engine has listed a segment) makes [readList] throw the
    TypeError of [null.pop()]: the global match finds nothing. *)
Theorem readList_without_entry_throws (fs : FileSystem) (destinationPath data : string) :
  files fs !! destinationPath = Some data ->
  str_includes data "#EXTINF:" = false ->
  readList fs destinationPath = Throw (null_deref "pop").
Proof.
  intros Hf Hn. unfold readList. rewrite Hf.
  unfold match_all, re_entry. now rewrite (match_all_absent _ _ _ Hn).
Qed.

Lemma readList_without_entry_throws_witness :
  readList {| files := {[ "out/1000_720p.m3u8" :=
                            join LF [ "#EXTM3U"; "#EXT-X-VERSION:3"; "#EXT-X-TARGETDURATION:5";
                                      "#EXT-X-MEDIA-SEQUENCE:0"; "" ] ]};
              watched := ∅ |} "out/1000_720p.m3u8"
  = Throw (null_deref "pop").
Proof.
  apply (readList_without_entry_throws _ _
           (join LF [ "#EXTM3U"; "#EXT-X-VERSION:3"; "#EXT-X-TARGETDURATION:5";
                      "#EXT-X-MEDIA-SEQUENCE:0"; "" ])).
  - vm_compute. reflexivity.
  - vm_compute. reflexivity.
Defined.

Lemma nonempty_eqb (s : string) : s <> "" -> negb (String.eqb s "") = true.
Proof. destruct s; [congruence | reflexivity]. Qed.

Lemma line_text_intro (s : string) : s <> "" -> all_chars not_LF s = true -> line_text s = true.
Proof. intros H1 H2. unfold line_text. now rewrite (nonempty_eqb _ H1), H2. Qed.

(** A string with one LF is cut at it in one way only. *)
Lemma single_LF (A B C D : string) :
  all_chars not_LF A = true -> all_chars not_LF B = true ->
  A +:+ LF +:+ B = C +:+ LF +:+ D -> C = A.
Proof.
  revert C. induction A as [|a A IH]; intros C HA HB.
  - destruct C as [|c C]; [reflexivity|].
    rewrite append_nil_l, append_cons. unfold LF at 1. rewrite append_cons, append_nil_l.
    intros [= <- ->]. rewrite all_chars_app in HB.
    apply andb_true_iff in HB as [_ HB]. discriminate.
  - simpl in HA. apply andb_true_iff in HA as [Ha HA].
    destruct C as [|c C].
    + rewrite append_nil_l, append_cons. unfold LF at 2. rewrite append_cons.
      intros [= -> _]. discriminate.
    + rewrite !append_cons. intros [= <- H]. f_equal. now apply IH.
Qed.

Lemma digit_char (c : ascii) (d : Decimal.uint) :
  digit c = true -> is_Some (uint_of_char c (Some d)).
Proof.
  destruct c as [[] [] [] [] [] [] [] []]; try discriminate; intros _; simpl; eauto.
Qed.

Lemma digits_uint (s : string) :
  all_chars digit s = true -> is_Some (NilEmpty.uint_of_string s).
Proof.
  induction s as [|c s IH]; simpl; [eauto|].
  intros H. apply andb_true_iff in H as [Hc Hs].
  destruct (IH Hs) as [d ->]. now apply digit_char.
Qed.

Lemma digits_number (s : string) :
  s <> "" -> all_chars digit s = true -> exists n, ToNumber s = Num (Z.of_N n).
Proof.
  intros Hne Hs. unfold ToNumber, digits_to_N.
  destruct (digits_uint s Hs) as [d Hd]. rewrite Hd.
  destruct s; [congruence|]. simpl. eauto.
Qed.

(** What the entry expression matches: the tag, a line, LF, a line. *)
Lemma entry_shape (data x : string) :
  In x (match_all re_entry data) ->
  exists run1 run2,
    x = "#EXTINF:" +:+ run1 +:+ LF +:+ run2
    /\ all_chars not_LF run1 = true /\ run2 <> "" /\ all_chars not_LF run2 = true.
Proof.
  intros H. apply match_all_aux_inv in H as (suf & m & Hm & <-).
  apply match_here_accepts in Hm. unfold re_entry in Hm. invert_accepts.
  eexists _, _. split; [unfold cons_match; simpl; now rewrite append_nil_r | eauto].
Qed.

Lemma readList_shape (fs : FileSystem) (destinationPath : string) (sn : Snapshot) :
  readList fs destinationPath = Normal sn ->
  line_text (sn_duration sn) = true
  /\ (exists n, sn_sequence sn = Num (Z.of_N n))
  /\ duration_text (seg_duration (sn_segment sn)) = true
  /\ line_text (seg_file (sn_segment sn)) = true
  /\ seg_discontinuity (sn_segment sn) = false.
Proof.
  unfold readList.
  destruct (files fs !! destinationPath) as [data|]; [|discriminate].
  destruct (last (match_all re_entry data)) as [segment|] eqn:Hlast; [|discriminate].
  destruct (match1 re_targetduration data "duration") as [duration|] eqn:Hd; [|discriminate].
  destruct (match1 re_media_sequence data "sequence") as [sequence|] eqn:Hs; [|discriminate].
  destruct (match1 re_entry_duration segment "segment.duration") as [sduration|] eqn:Hsd;
    [|discriminate].
  destruct (match1 re_entry_file segment "segment.file") as [sfile|] eqn:Hsf; [|discriminate].
  simpl. intros [= <-]. simpl.
  apply last_Some in Hlast as [init Hinit].
  assert (Hin : In segment (match_all re_entry data)).
  { rewrite Hinit. apply in_or_app. right. now left. }
  apply entry_shape in Hin as (run1 & run2 & Hx & Hr1 & Hne2 & Hr2).
  apply match1_inv in Hd as (? & ? & m1 & _ & Hm1 & Hc1).
  apply match_here_accepts in Hm1. unfold re_targetduration in Hm1. invert_accepts.
  simpl in Hc1. injection Hc1 as <-.
  apply match1_inv in Hs as (? & ? & m2 & _ & Hm2 & Hc2).
  apply match_here_accepts in Hm2. unfold re_media_sequence in Hm2. invert_accepts.
  simpl in Hc2. injection Hc2 as <-.
  apply match1_inv in Hsd as (pre & ? & m3 & Hcut & Hm3 & Hc3).
  apply match_here_accepts in Hm3. unfold re_entry_duration in Hm3. invert_accepts.
  simpl in Hc3. injection Hc3 as <-.
  apply match1_inv in Hsf as (? & ? & m4 & _ & Hm4 & Hc4).
  apply match_here_accepts in Hm4. unfold re_entry_file in Hm4. invert_accepts.
  simpl in Hc4. injection Hc4 as <-.
  repeat split.
  - now apply line_text_intro.
  - now apply digits_number.
  - unfold duration_text. apply andb_true_iff. split; [|assumption].
    apply line_text_intro; [assumption|].
    match type of Hcut with
    | _ = pre +:+ "#EXTINF:" +:+ ?c +:+ ("," +:+ LF) +:+ ?tl =>
        assert (HC : pre +:+ "#EXTINF:" +:+ c +:+ "," = "#EXTINF:" +:+ run1);
        [ apply (single_LF ("#EXTINF:" +:+ run1) run2 _ tl);
          [ rewrite all_chars_app; now rewrite Hr1 | assumption | ]
        | ]
    end.
    + rewrite !append_assoc. rewrite !append_assoc in Hcut. exact Hcut.
    + assert (Hall : all_chars not_LF ("#EXTINF:" +:+ run1) = true)
        by (rewrite all_chars_app; now rewrite Hr1).
      rewrite <- HC in Hall. rewrite !all_chars_app in Hall.
      apply andb_true_iff in Hall as [_ Hall]. apply andb_true_iff in Hall as [_ Hall].
      now apply andb_true_iff in Hall as [Hall _].
  - now apply line_text_intro.
Qed.

(** X3. Whatever [readList] returns can be printed on lines of its own:
    the target duration is a non-empty text without LF, the sequence a
    non-negative integer (never NaN), the entry's duration a non-empty text
    without LF or comma, its file a non-empty text without LF, and the
    entry carries no discontinuity flag. *)
Theorem readList_result_is_printable (fs : FileSystem) (destinationPath : string)
    (sn : Snapshot) :
  readList fs destinationPath = Normal sn ->
  line_text (sn_duration sn) = true
  /\ (exists n, sn_sequence sn = Num (Z.of_N n))
  /\ duration_text (seg_duration (sn_segment sn)) = true
  /\ line_text (seg_file (sn_segment sn)) = true
  /\ seg_discontinuity (sn_segment sn) = false.
Proof. intros H. exact (readList_shape fs destinationPath sn H). Qed.

Lemma readList_result_is_printable_witness :
  line_text (sn_duration sample_snapshot) = true
  /\ (exists n, sn_sequence sample_snapshot = Num (Z.of_N n))
  /\ duration_text (seg_duration (sn_segment sample_snapshot)) = true
  /\ line_text (seg_file (sn_segment sample_snapshot)) = true
  /\ seg_discontinuity (sn_segment sample_snapshot) = false.
Proof.
  apply (readList_result_is_printable sample_fs (Emission.listDir "out" "1000" "720p")).
  vm_compute. reflexivity.
Defined.

(** X4. [readList] inverts [writeMasterList] on what it keeps.  For a view
    whose sequence is a non-negative integer below 2^53, whose target
    duration is a number the embedding holds exactly, with at least one
    segment, and whose durations and written URIs are lines (the durations
    without comma), reading the written playlist back returns the printed
    target duration, the sequence, and the last segment under the URI it
    was written with; the earlier segments and every discontinuity flag
    are not read. *)
Theorem readList_after_writeMasterList href (fs fs' : FileSystem) (fileDir : string)
    (url : option string) (view : View) (z : Z) :
  v_sequence view = Num z -> (0 <= z < 2 ^ 53)%Z ->
  exact_number (v_duration view) ->
  v_segments view <> [] ->
  Forall (fun segment =>
            duration_text (seg_duration segment) = true
            /\ forall uri, rewrite_file href url (seg_file segment) = Normal uri ->
                           line_text uri = true) (v_segments view) ->
  writeMasterList href fs fileDir url view = Normal fs' ->
  exists segment uri,
    last (v_segments view) = Some segment
    /\ rewrite_file href url (seg_file segment) = Normal uri
    /\ readList fs' fileDir
       = Normal {| sn_duration := NumberToString (v_duration view);
                   sn_sequence := v_sequence view;
                   sn_segment := {| seg_duration := seg_duration segment;
                                    seg_file := uri;
                                    seg_discontinuity := false |} |}.
Proof.
  intros Hz [Hpos _] _ Hne Hok Hw.
  exact (readList_written href fs fs' fileDir url view z Hz Hpos Hne Hok Hw).
Qed.

Lemma readList_after_writeMasterList_witness :
  exists segment uri,
    last (v_segments view_A) = Some segment
    /\ rewrite_file sample_href (Some "http://host/") (seg_file segment) = Normal uri
    /\ readList (writeFileSync {| files := ∅; watched := ∅ |} "out/720p.m3u8"
                   (join LF [ "#EXTM3U"; "#EXT-X-VERSION:3"; "#EXT-X-ALLOW-CACHE:YES";
                              "#EXT-X-TARGETDURATION:6"; "#EXT-X-MEDIA-SEQUENCE:1";
                              "#EXTINF:4,"; "http://host/720p_0001.ts";
                              "#EXTINF:4,"; "http://host/720p_0002.ts";
                              "#EXTINF:4,"; "http://host/720p_0003.ts" ]))
                "out/720p.m3u8"
       = Normal {| sn_duration := NumberToString (v_duration view_A);
                   sn_sequence := v_sequence view_A;
                   sn_segment := {| seg_duration := seg_duration segment;
                                    seg_file := uri;
                                    seg_discontinuity := false |} |}.
Proof.
  apply (readList_after_writeMasterList sample_href {| files := ∅; watched := ∅ |} _
           "out/720p.m3u8" (Some "http://host/") view_A 1).
  - reflexivity.
  - lia.
  - simpl. lia.
  - discriminate.
  - repeat constructor; intros uri [= <-]; reflexivity.
  - reflexivity.
Defined.

(** X5. A snapshot [readList] returned survives a rewrite.  When its
    sequence is below 2^53, written by [writeMasterList] as the only
    segment of a view, with no base URL and a target duration the
    embedding holds exactly, and read again, it comes back with the same
    sequence and the same entry; the target duration read is the one the
    view printed. *)
Theorem snapshot_survives_rewrite href (fs fs1 fs2 : FileSystem) (p q : string)
    (sn : Snapshot) (duration : Number) (z : Z) :
  readList fs p = Normal sn ->
  sn_sequence sn = Num z -> (z < 2 ^ 53)%Z ->
  exact_number duration ->
  writeMasterList href fs1 q None
    {| v_duration := duration; v_sequence := sn_sequence sn; v_segments := [sn_segment sn] |}
  = Normal fs2 ->
  readList fs2 q
  = Normal {| sn_duration := NumberToString duration;
              sn_sequence := sn_sequence sn;
              sn_segment := sn_segment sn |}.
Proof.
  intros Hr _ _ _ Hw.
  destruct (readList_shape _ _ _ Hr) as (_ & [n Hn] & Hd & Hf & Hflag).
  destruct (readList_written href fs1 fs2 q None
              {| v_duration := duration; v_sequence := sn_sequence sn;
                 v_segments := [sn_segment sn] |} (Z.of_N n) Hn (N2Z.is_nonneg n))
    as (segment & uri & Hlast & Huri & Hread); [discriminate | | exact Hw |].
  - constructor; [|constructor]. split; [exact Hd|]. now intros uri [= <-].
  - simpl in Hlast, Hread. injection Hlast as <-. injection Huri as <-.
    rewrite Hread. do 2 f_equal.
    destruct (sn_segment sn) as [d f flag]. simpl in *. now subst flag.
Qed.

Lemma snapshot_survives_rewrite_witness :
  readList (writeFileSync {| files := ∅; watched := ∅ |} "out/720p.m3u8"
              (join LF [ "#EXTM3U"; "#EXT-X-VERSION:3"; "#EXT-X-ALLOW-CACHE:YES";
                         "#EXT-X-TARGETDURATION:5"; "#EXT-X-MEDIA-SEQUENCE:7";
                         "#EXTINF:5.000000,"; "720p_0007.ts" ]))
           "out/720p.m3u8"
  = Normal {| sn_duration := NumberToString (Num 5);
              sn_sequence := sn_sequence sample_snapshot;
              sn_segment := sn_segment sample_snapshot |}.
Proof.
  apply (snapshot_survives_rewrite sample_href sample_fs {| files := ∅; watched := ∅ |} _
           (Emission.listDir "out" "1000" "720p") "out/720p.m3u8" sample_snapshot (Num 5) 7).
  - vm_compute. reflexivity.
  - reflexivity.
  - lia.
  - simpl. lia.
  - reflexivity.
Defined.

(** ** The life of an Emission *)

Lemma select_ext (f g : nat -> bool) (l : list Rendition) (j : nat -> nat) :
  (forall i, (i < length l)%nat -> f (j i) = g (j i)) ->
  omap (fun '(i, rendition) => if f i then Some rendition else None)
       (imap (fun i rendition => (j i, rendition)) l)
  = omap (fun '(i, rendition) => if g i then Some rendition else None)
         (imap (fun i rendition => (j i, rendition)) l).
Proof.
  revert j. induction l as [|x l IH]; intros j H; [reflexivity|].
  cbn [imap omap list_omap]. rewrite (H 0%nat) by (simpl; lia).
  change ((fun i (rendition : Rendition) => (j i, rendition)) ∘ S)
    with (fun i (rendition : Rendition) => ((j ∘ S) i, rendition)).
  rewrite (IH (j ∘ S)); [reflexivity|].
  intros i Hi. apply (H (S i)). simpl. lia.
Qed.

Lemma enabled_low_bits (resolutionMask : N) :
  enabled resolutionMask = enabled (resolutionMask mod 16).
Proof.
  unfold enabled. apply (select_ext _ _ RENDITIONS (fun i => i)).
  intros i Hi. unfold mask_bit. change 16%N with (2 ^ 4)%N.
  rewrite N.mod_pow2_bits_low; [reflexivity|]. simpl in Hi. lia.
Qed.

(** X6. Only the four low bits of the resolution mask count: the Emission
    constructed for a mask is the one constructed for the mask modulo 16,
    with the same engine parameters and the same buffers. *)
Theorem new_reads_four_mask_bits (dir input : string) (segmentTime : N) (listSize : Z)
    (resolutionMask now : N) :
  Emission.new dir input segmentTime listSize resolutionMask now
  = Emission.new dir input segmentTime listSize (resolutionMask mod 16) now.
Proof.
  unfold Emission.new, Emission.getRenditions.
  now rewrite (enabled_low_bits resolutionMask).
Qed.

Lemma start_fold (dir timestamp : string) (fs : FileSystem) (lists : gmap string (list Snapshot)) :
  let fs1 := map_fold (fun res (_ : list Snapshot) fs0 =>
                         watchFile fs0 (Emission.listDir dir timestamp res)) fs lists in
  files fs1 = files fs
  /\ forall p, p ∈ watched fs1
               <-> p ∈ watched fs
                   \/ exists res, is_Some (lists !! res) /\ p = Emission.listDir dir timestamp res.
Proof.
  cbv zeta.
  apply (map_fold_weak_ind
           (fun fs1 (m : gmap string (list Snapshot)) =>
              files fs1 = files fs
              /\ forall p, p ∈ watched fs1
                           <-> p ∈ watched fs
                               \/ exists res, is_Some (m !! res)
                                              /\ p = Emission.listDir dir timestamp res)).
  - split; [reflexivity|]. intros p. split; [auto|].
    intros [H|(res & [x Hx] & _)]; [exact H|]. now rewrite lookup_empty in Hx.
  - intros res x m fs0 Hres [Hf Hw]. split; [exact Hf|].
    intros p. cbn [watchFile watched]. rewrite elem_of_union, elem_of_singleton, Hw.
    split.
    + intros [->|[H|(res' & [y Hy] & ->)]].
      * right. exists res. split; [|reflexivity]. rewrite lookup_insert_eq. eauto.
      * now left.
      * right. exists res'. split; [|reflexivity].
        destruct (decide (res = res')) as [->|Hne]; [congruence|].
        rewrite lookup_insert_ne by exact Hne. eauto.
    + intros [H|(res' & [y Hy] & ->)]; [auto|].
      destruct (decide (res = res')) as [->|Hne]; [now left|].
      rewrite lookup_insert_ne in Hy by exact Hne. right. right. exists res'. eauto.
Qed.

Lemma new_buffers (dir input : string) (segmentTime : N) (listSize : Z)
    (resolutionMask now : N) (res : string) :
  let e := Emission.new dir input segmentTime listSize resolutionMask now in
  (is_Some (Emission._list e !! res)
   <-> exists rendition, In rendition (enabled resolutionMask) /\ res = res_key rendition)
  /\ forall buf, Emission._list e !! res = Some buf -> buf = [].
Proof.
  cbv zeta. cbn [Emission.new Emission._list]. split.
  - split.
    + intros [buf H]. apply elem_of_list_to_map_2 in H.
      apply list_elem_of_In, in_map_iff in H as (rendition & [= <- _] & Hin). eauto.
    + intros (rendition & Hin & ->).
      apply (elem_of_dom (D := gset string)). rewrite dom_list_to_map_L.
      apply elem_of_list_to_set, list_elem_of_fmap.
      exists (res_key rendition, []). split; [reflexivity|].
      apply list_elem_of_In, in_map_iff. eauto.
  - intros buf H. apply elem_of_list_to_map_2 in H.
    now apply list_elem_of_In, in_map_iff in H as (rendition & [= _ <-] & _).
Qed.

(** X7. Starting a freshly constructed Emission spawns the engine, leaves
    every file as it is, and adds to the watched paths the engine playlist
    of each rendition the mask enables and nothing else; each of these
    playlists is an output named in the parameters handed to the engine. *)
Theorem start_watches_the_engine_playlists (fs : FileSystem) (dir input : string)
    (segmentTime : N) (listSize : Z) (resolutionMask now : N) :
  let e := Emission.new dir input segmentTime listSize resolutionMask now in
  let playlist rendition := Emission.listDir dir (N_to_string now) (res_key rendition) in
  exists fs1 e1,
    Emission.start fs e = (fs1, e1, Pending)
    /\ Emission._process e1 = Some {| stdin_paused := false; killed := false |}
    /\ files fs1 = files fs
    /\ (forall p, p ∈ watched fs1
                  <-> p ∈ watched fs
                      \/ exists rendition, In rendition (enabled resolutionMask)
                                           /\ p = playlist rendition)
    /\ (forall rendition, In rendition (enabled resolutionMask) ->
          In (playlist rendition) (Emission._params e1)).
Proof.
  cbv zeta. unfold Emission.start. cbn [Emission.new Emission._process].
  eexists _, _. split; [reflexivity|]. split; [reflexivity|].
  cbn [Emission._dir Emission._timestamp Emission._list Emission._params Emission.set_process].
  pose proof (start_fold dir (N_to_string now) fs
                (Emission._list (Emission.new dir input segmentTime listSize resolutionMask now)))
    as [Hf Hw].
  cbn [Emission.new Emission._list] in Hf, Hw.
  split; [exact Hf|]. split.
  - intros p. rewrite Hw. split; (intros [H|(x & Hx & ->)]; [now left | right]).
    + apply (new_buffers dir input segmentTime listSize resolutionMask now x) in Hx
        as (rendition & Hin & ->). eauto.
    + exists (res_key x). split; [|reflexivity].
      apply (new_buffers dir input segmentTime listSize resolutionMask now). eauto.
  - intros rendition Hin. apply in_or_app. right.
    unfold Emission.getRenditions. apply in_flat_map. exists rendition. split; [exact Hin|].
    unfold Emission.getRendition. cbv zeta. repeat (try (left; reflexivity); right).
Qed.

(** X8. An Emission is started once.  After a call of [start], every later
    call is rejected with 'Already in transition' and changes nothing (no
    second engine, no watcher), and [stop] does not lift this: it leaves
    [_process] set. *)
Theorem start_is_once_only (fs fs' : FileSystem) (e : Emission.t) :
  let e1 := snd (fst (Emission.start fs e)) in
  Emission.start fs' e1 = (fs', e1, Rejected "Already in transition")
  /\ Emission.start fs' (Emission.stop e1)
     = (fs', Emission.stop e1, Rejected "Already in transition").
Proof.
  cbv zeta. unfold Emission.start, Emission.stop.
  destruct (Emission._process e) as [p|] eqn:Hp; simpl; rewrite ?Hp; simpl; auto.
Qed.

Lemma start_watches_fresh (fs : FileSystem) (dir input : string)
    (segmentTime : N) (listSize : Z) (resolutionMask now : N) :
  exists fs1 e1,
    Emission.start fs (Emission.new dir input segmentTime listSize resolutionMask now)
    = (fs1, e1, Pending)
    /\ Emission._process e1 = Some {| stdin_paused := false; killed := false |}
    /\ Emission._input e1 = input
    /\ Emission._list e1
       = Emission._list (Emission.new dir input segmentTime listSize resolutionMask now)
    /\ files fs1 = files fs.
Proof.
  unfold Emission.start. cbn [Emission.new Emission._process].
  eexists _, _. split; [reflexivity|]. repeat split.
  apply (start_fold dir (N_to_string now) fs).
Qed.

Lemma split_aux_absent (sep : string) (s cur : string) :
  str_includes s sep = false -> split_aux sep 0 cur s = [cur +:+ s].
Proof.
  revert cur. induction s as [|c s IH]; intros cur H.
  - simpl. now rewrite append_nil_r.
  - cbn [str_includes] in H. apply orb_false_iff in H as [Hp Hs].
    cbn [split_aux]. rewrite Hp, (IH _ Hs), append_assoc. reflexivity.
Qed.

Lemma find_whole_chunk (data : string) (phrases : list string) :
  find (fun error => includes [data] error) phrases
  = if includes phrases data then Some data else None.
Proof.
  unfold includes. induction phrases as [|x l IH]; [reflexivity|].
  cbn [find existsb]. rewrite orb_false_r, (String.eqb_sym data x).
  destruct (String.eqb_spec x data) as [->|_]; [reflexivity | exact IH].
Qed.

(** X9. A chunk of the diagnostic stream in which CR LF does not occur is
    compared as a whole: the handler rejects (with the chunk) when the chunk
    is one of the phrases, character for character, and does nothing
    otherwise, whatever lines ending in LF alone the chunk holds. *)
Theorem stderr_chunk_without_CRLF (e : Emission.t) (data : string) :
  str_includes data CRLF = false ->
  Emission.on_stderr_data e data
  = if includes Emission.knownErrors data
    then Emission.set_promise e (settle (Emission.promise e) (Rejected data))
    else e.
Proof.
  intros H. unfold Emission.on_stderr_data, js_split.
  rewrite (split_aux_absent _ _ _ H), append_nil_l, find_whole_chunk.
  now destruct (includes Emission.knownErrors data).
Qed.

Lemma stderr_chunk_without_CRLF_witness :
  Emission.on_stderr_data sample_emission
    ("in.mp4: No such file or directory" +:+ LF +:+ "No such file or directory" +:+ LF)
  = if includes Emission.knownErrors
         ("in.mp4: No such file or directory" +:+ LF +:+ "No such file or directory" +:+ LF)
    then Emission.set_promise sample_emission
           (settle (Emission.promise sample_emission)
              (Rejected ("in.mp4: No such file or directory" +:+ LF
                         +:+ "No such file or directory" +:+ LF)))
    else sample_emission.
Proof.
  apply (stderr_chunk_without_CRLF sample_emission
           ("in.mp4: No such file or directory" +:+ LF +:+ "No such file or directory" +:+ LF)).
  reflexivity.
Defined.

Lemma unlink_if_exists_other (f : FileSystem) (p q : string) :
  q <> p -> files (if existsSync f p then unlinkSync f p else f) !! q = files f !! q.
Proof.
  intros Hne. destruct (existsSync f p); [|reflexivity].
  simpl. now apply lookup_delete_ne.
Qed.

(** X10. [dispose] on a buffer that holds entries removes the oldest one:
    the entry leaves the buffer, its segment file is gone, and the call
    returns true exactly when the buffer is left empty, in which case the
    rendition's engine playlist is deleted and no longer watched.  No other
    file, watcher or buffer is touched. *)
Theorem dispose_removes_the_oldest (fs : FileSystem) (e : Emission.t) (res : string)
    (item : Snapshot) (tl : list Snapshot) :
  Emission._list e !! res = Some (item :: tl) ->
  let segDir := path_join (Emission._dir e) (seg_file (sn_segment item)) in
  let ld := Emission.listDir (Emission._dir e) (Emission._timestamp e) res in
  exists fs1 e1,
    Emission.dispose fs e res = Normal (fs1, e1, bool_decide (tl = []))
    /\ Emission._list e1 = <[res := tl]> (Emission._list e)
    /\ files fs1 !! segDir = None
    /\ (tl = [] -> files fs1 !! ld = None /\ ld ∉ watched fs1)
    /\ (forall p, p <> segDir -> (tl = [] -> p <> ld) -> files fs1 !! p = files fs !! p)
    /\ (forall p, (tl = [] -> p <> ld) -> p ∈ watched fs1 <-> p ∈ watched fs).
Proof.
  intros Hl. cbv zeta. unfold Emission.dispose. rewrite Hl.
  set (segDir := path_join (Emission._dir e) (seg_file (sn_segment item))).
  set (ld := Emission.listDir (Emission._dir e) (Emission._timestamp e) res).
  set (fs1 := if existsSync fs segDir then unlinkSync fs segDir else fs).
  assert (H1 : files fs1 !! segDir = None) by apply unlink_if_exists.
  assert (Hw1 : watched fs1 = watched fs) by apply unlink_if_exists_watched.
  destruct tl as [|b tl].
  - eexists _, _. split; [reflexivity|]. split; [reflexivity|].
    set (fs2 := unwatchFile fs1 ld).
    assert (Hw2 : watched (if existsSync fs2 ld then unlinkSync fs2 ld else fs2)
                  = watched fs ∖ {[ld]}).
    { rewrite unlink_if_exists_watched. unfold fs2. simpl. now rewrite Hw1. }
    split; [|split; [|split]].
    + apply unlink_if_exists_mono. exact H1.
    + intros _. split; [apply unlink_if_exists|].
      rewrite Hw2, elem_of_difference, elem_of_singleton. tauto.
    + intros p Hp Hq. rewrite unlink_if_exists_other by (apply Hq; reflexivity).
      unfold fs2. simpl. now apply unlink_if_exists_other.
    + intros p Hq. specialize (Hq eq_refl).
      rewrite Hw2, elem_of_difference, elem_of_singleton. tauto.
  - eexists _, _. split; [reflexivity|]. split; [reflexivity|].
    split; [exact H1|]. split; [discriminate|]. split.
    + intros p Hp _. now apply unlink_if_exists_other.
    + intros p _. now rewrite Hw1.
Qed.

Lemma dispose_removes_the_oldest_witness :
  exists fs1 e1,
    Emission.dispose (FileStreaming.fs session_A) (emission_with 1000 buffer_A) "720p"
    = Normal (fs1, e1, false)
    /\ Emission._list e1
       = <["720p" := [ snapshot "6" 1 "4" "720p_0001.ts"; snapshot "6" 2 "4" "720p_0002.ts";
                       snapshot "6" 3 "4" "720p_0003.ts" ]]>
           (Emission._list (emission_with 1000 buffer_A))
    /\ files fs1 !! "out/720p_0000.ts" = None
    /\ files fs1 !! "out/720p_0001.ts" = files (FileStreaming.fs session_A) !! "out/720p_0001.ts".
Proof.
  destruct (dispose_removes_the_oldest (FileStreaming.fs session_A) (emission_with 1000 buffer_A)
              "720p" (snapshot "6" 0 "4" "720p_0000.ts")
              [ snapshot "6" 1 "4" "720p_0001.ts"; snapshot "6" 2 "4" "720p_0002.ts";
                snapshot "6" 3 "4" "720p_0003.ts" ])
    as (fs1 & e1 & Hd & Hl & Hs & _ & Hf & _).
  - vm_compute. reflexivity.
  - exists fs1, e1. split; [exact Hd|]. split; [exact Hl|]. split; [exact Hs|].
    apply Hf; [discriminate | discriminate].
Defined.

(** The inner loop of [disposeAll]: the segment files of a buffer. *)
Lemma unlink_segments (dir : string) (items : list Snapshot) (fs : FileSystem) :
  let fs1 := fold_left (fun fs' item =>
                          let segDir := path_join dir (seg_file (sn_segment item)) in
                          if existsSync fs' segDir then unlinkSync fs' segDir else fs')
                       items fs in
  (forall item, In item items -> files fs1 !! path_join dir (seg_file (sn_segment item)) = None)
  /\ (forall p, files fs !! p = None -> files fs1 !! p = None)
  /\ watched fs1 = watched fs
  /\ (forall p, (forall item, In item items -> p <> path_join dir (seg_file (sn_segment item))) ->
        files fs1 !! p = files fs !! p).
Proof.
  cbv zeta. revert fs. induction items as [|x items IH]; intros fs.
  - simpl. repeat split; auto. intros item [].
  - cbn [fold_left].
    set (segDir := path_join dir (seg_file (sn_segment x))).
    set (fs0 := if existsSync fs segDir then unlinkSync fs segDir else fs).
    destruct (IH fs0) as (Hitems & Hmono & Hw & Hframe).
    repeat split.
    + intros item [<-|Hin]; [|now apply Hitems].
      apply Hmono, unlink_if_exists.
    + intros p Hp. now apply Hmono, unlink_if_exists_mono.
    + rewrite Hw. apply unlink_if_exists_watched.
    + intros p Hp. rewrite Hframe by (intros item Hin; apply Hp; now right).
      apply unlink_if_exists_other, Hp. now left.
Qed.

Lemma disposeAll_fold (e : Emission.t) (fs : FileSystem) :
  let ld res := Emission.listDir (Emission._dir e) (Emission._timestamp e) res in
  let segDir item := path_join (Emission._dir e) (seg_file (sn_segment item)) in
  let fs1 := Emission.disposeAll fs e in
  (forall res items, Emission._list e !! res = Some items ->
     files fs1 !! ld res = None
     /\ (ld res ∉ watched fs1)
     /\ forall item, In item items -> files fs1 !! segDir item = None)
  /\ (forall p, files fs !! p = None -> files fs1 !! p = None)
  /\ (forall p, p ∈ watched fs1 -> p ∈ watched fs)
  /\ (forall p, (forall res, is_Some (Emission._list e !! res) -> p <> ld res) ->
        (p ∈ watched fs1 <-> p ∈ watched fs)
        /\ ((forall res items item, Emission._list e !! res = Some items -> In item items ->
               p <> segDir item) ->
            files fs1 !! p = files fs !! p)).
Proof.
  cbv zeta. unfold Emission.disposeAll.
  set (ld res := Emission.listDir (Emission._dir e) (Emission._timestamp e) res).
  set (segDir item := path_join (Emission._dir e) (seg_file (sn_segment item))).
  apply (map_fold_weak_ind
           (fun fs1 (m : gmap string (list Snapshot)) =>
              (forall res items, m !! res = Some items ->
                 files fs1 !! ld res = None
                 /\ (ld res ∉ watched fs1)
                 /\ forall item, In item items -> files fs1 !! segDir item = None)
              /\ (forall p, files fs !! p = None -> files fs1 !! p = None)
              /\ (forall p, p ∈ watched fs1 -> p ∈ watched fs)
              /\ (forall p, (forall res, is_Some (m !! res) -> p <> ld res) ->
                    (p ∈ watched fs1 <-> p ∈ watched fs)
                    /\ ((forall res items item, m !! res = Some items -> In item items ->
                           p <> segDir item) ->
                        files fs1 !! p = files fs !! p)))).
  - repeat split; auto; intros; try (rewrite lookup_empty in *; discriminate).
  - intros res items m fs0 Hres (Hkeys & Hmono & Hsub & Hframe).
    destruct (unlink_segments (Emission._dir e) items fs0) as (Hitems & Hm1 & Hw1 & Hf1).
    set (fs1 := fold_left _ items fs0) in *.
    set (fs2 := unwatchFile fs1 (ld res)).
    assert (Hw3 : watched (if existsSync fs2 (ld res) then unlinkSync fs2 (ld res) else fs2)
                  = watched fs0 ∖ {[ld res]}).
    { rewrite unlink_if_exists_watched. unfold fs2. simpl. now rewrite Hw1. }
    assert (Hm3 : forall p, files fs0 !! p = None ->
                    files (if existsSync fs2 (ld res) then unlinkSync fs2 (ld res) else fs2) !! p
                    = None).
    { intros p Hp. apply unlink_if_exists_mono. unfold fs2. simpl. now apply Hm1. }
    split; [|split; [|split]].
    + intros res' items' Hl.
      destruct (decide (res = res')) as [<-|Hne].
      * rewrite lookup_insert_eq in Hl. injection Hl as <-.
        split; [apply unlink_if_exists|]. split.
        -- rewrite Hw3, elem_of_difference, elem_of_singleton. tauto.
        -- intros item Hin. apply unlink_if_exists_mono. unfold fs2. simpl. now apply Hitems.
      * rewrite lookup_insert_ne in Hl by exact Hne.
        destruct (Hkeys res' items' Hl) as (H1 & H2 & H3).
        split; [now apply Hm3|]. split.
        -- rewrite Hw3, elem_of_difference. tauto.
        -- intros item Hin. now apply Hm3, H3.
    + intros p Hp. now apply Hm3, Hmono.
    + intros p. rewrite Hw3, elem_of_difference. intros [Hp _]. now apply Hsub.
    + intros p Hp.
      assert (Hp' : forall res', is_Some (m !! res') -> p <> ld res').
      { intros res' [x Hx]. apply Hp. destruct (decide (res = res')) as [<-|Hne]; [congruence|].
        rewrite lookup_insert_ne by exact Hne. eauto. }
      assert (Hpl : p <> ld res) by (apply Hp; rewrite lookup_insert_eq; eauto).
      destruct (Hframe p Hp') as [Hwp Hfp]. split.
      * rewrite Hw3, elem_of_difference, elem_of_singleton, <- Hwp. tauto.
      * intros Hseg. rewrite unlink_if_exists_other by exact Hpl.
        unfold fs2. simpl. rewrite Hf1.
        -- apply Hfp. intros res' items' item Hl Hin. apply (Hseg res' items'); [|exact Hin].
           destruct (decide (res = res')) as [<-|Hne]; [congruence|].
           now rewrite lookup_insert_ne by exact Hne.
        -- intros item Hin. apply (Hseg res items); [|exact Hin]. apply lookup_insert_eq.
Qed.

(** X11. [disposeAll] leaves on disk none of the segment files the Emission
    buffers and none of its engine playlists, and none of these playlists
    stays watched; it creates no file and no watcher, and every path that is
    neither such a segment file nor such a playlist keeps its content. *)
Theorem disposeAll_removes_what_is_buffered (e : Emission.t) (fs : FileSystem) :
  let ld res := Emission.listDir (Emission._dir e) (Emission._timestamp e) res in
  let segDir item := path_join (Emission._dir e) (seg_file (sn_segment item)) in
  let fs1 := Emission.disposeAll fs e in
  disposed e fs1
  /\ (forall p, files fs !! p = None -> files fs1 !! p = None)
  /\ (forall p, p ∈ watched fs1 -> p ∈ watched fs)
  /\ (forall p, (forall res, is_Some (Emission._list e !! res) -> p <> ld res) ->
        (p ∈ watched fs1 <-> p ∈ watched fs)
        /\ ((forall res items item, Emission._list e !! res = Some items -> In item items ->
               p <> segDir item) ->
            files fs1 !! p = files fs !! p)).
Proof.
  cbv zeta. destruct (disposeAll_fold e fs) as (Hgone & Hmono & Hsub & Hframe).
  split; [exact Hgone|]. split; [exact Hmono|]. split; [exact Hsub | exact Hframe].
Qed.
(** ** The session as written *)

Lemma stop_list (e : Emission.t) : Emission._list (Emission.stop e) = Emission._list e.
Proof. unfold Emission.stop. now destruct (Emission._process e). Qed.

Lemma promote_fixed (s : FileStreaming.t) (e : nat) :
  FileStreaming.fs (FileStreaming.promote s e) = FileStreaming.fs s
  /\ config (FileStreaming.promote s e) = config s
  /\ (is_Some (FileStreaming._last s) -> is_Some (FileStreaming._last (FileStreaming.promote s e)))
  /\ forall a r, FileStreaming.buffer (FileStreaming.promote s e) a r = FileStreaming.buffer s a r.
Proof.
  unfold FileStreaming.promote.
  destruct (FileStreaming._current s) as [c|]; [|repeat split; auto].
  destruct (FileStreaming.heap s !! e) as [emission|] eqn:He; [|repeat split; auto].
  destruct (FileStreaming.heap s !! c) as [current|] eqn:Hc; [|repeat split; auto].
  destruct (_ && _); [|repeat split; auto].
  repeat split; [eauto|].
  intros a r. unfold FileStreaming.buffer. cbn [FileStreaming.heap FileStreaming.set_heap].
  destruct (decide (c = a)) as [<-|Hne].
  - now rewrite lookup_insert_eq, Hc, stop_list.
  - now rewrite lookup_insert_ne by exact Hne.
Qed.

(** X12. While no Emission is draining, [emit] constructs an Emission and
    starts it at once, beside whatever is current: the new object is
    stored at a fresh address with its engine running and its buffers
    empty, [_current] and every Emission already there are left as they
    are (no engine is stopped), no file changes, and [_last] stays unset,
    so that the next [emit] is accepted in the same way. *)
Theorem emit_starts_beside_the_current (s : FileStreaming.t) (input : string) (now : N) :
  FileStreaming._last s = None ->
  let a := FileStreaming.fresh_address (FileStreaming.heap s) in
  exists s1 e,
    FileStreaming.emit s input now = (s1, FileStreaming.EmitStarted a)
    /\ FileStreaming.heap s !! a = None
    /\ FileStreaming.heap s1 = <[a := e]> (FileStreaming.heap s)
    /\ Emission._input e = input
    /\ Emission._process e = Some {| stdin_paused := false; killed := false |}
    /\ Emission.isEmpty e = true
    /\ FileStreaming._last s1 = None
    /\ FileStreaming._current s1 = FileStreaming._current s
    /\ files (FileStreaming.fs s1) = files (FileStreaming.fs s)
    /\ config s1 = config s.
Proof.
  intros Hl. cbv zeta. unfold FileStreaming.emit. rewrite Hl.
  destruct (start_watches_fresh (FileStreaming.fs s) (FileStreaming._dir s) input
              (FileStreaming._segmentTime s) (FileStreaming._listSize s)
              (FileStreaming._resolutionMask s) now)
    as (fs1 & e1 & Hstart & Hproc & Hinput & Hlist & Hfiles).
  rewrite Hstart. eexists _, e1. split; [reflexivity|].
  split; [apply (not_elem_of_dom (D := gset nat)); unfold FileStreaming.fresh_address;
          apply is_fresh|].
  split; [reflexivity|]. split; [exact Hinput|]. split; [exact Hproc|].
  split.
  - unfold Emission.isEmpty. apply bool_decide_eq_true. intros res buf Hb.
    rewrite Hlist in Hb.
    now apply (new_buffers (FileStreaming._dir s) input (FileStreaming._segmentTime s)
                 (FileStreaming._listSize s) (FileStreaming._resolutionMask s) now res).
  - repeat split; [exact Hl | exact Hfiles].
Qed.

Lemma emit_starts_beside_the_current_witness :
  exists s1 e,
    FileStreaming.emit session_A "next.mp4" 2000 = (s1, FileStreaming.EmitStarted 1%nat)
    /\ FileStreaming.heap session_A !! 1%nat = None
    /\ FileStreaming.heap s1 = <[1%nat := e]> (FileStreaming.heap session_A)
    /\ Emission._input e = "next.mp4"
    /\ Emission._process e = Some {| stdin_paused := false; killed := false |}
    /\ Emission.isEmpty e = true
    /\ FileStreaming._last s1 = None
    /\ FileStreaming._current s1 = FileStreaming._current session_A
    /\ files (FileStreaming.fs s1) = files (FileStreaming.fs session_A)
    /\ config s1 = config session_A.
Proof.
  change 1%nat with (FileStreaming.fresh_address (FileStreaming.heap session_A)).
  apply (emit_starts_beside_the_current session_A "next.mp4" 2000). reflexivity.
Defined.

Lemma merge_without_list (s : FileStreaming.t) (r : string) :
  is_Some (FileStreaming._current s) ->
  exists what, FileStreaming.merge Emission.get_list s r = Throw (TypeError what).
Proof.
  intros [c Hc]. unfold FileStreaming.merge. rewrite Hc.
  change (Emission.get_list) with (fun _ : Emission.t => @None (gmap string (list Snapshot))).
  destruct (FileStreaming._last s) as [l|]; simpl.
  - destruct (FileStreaming.heap s !! l); simpl; eauto.
  - destruct (FileStreaming.heap s !! c); simpl; eauto.
Qed.

Lemma onWrite_result href (s : FileStreaming.t) (e : nat) (r : string) :
  fst (FileStreaming.onWrite href s e r) = FileStreaming.promote s e
  /\ exists what, snd (FileStreaming.onWrite href s e r) = Throw (TypeError what).
Proof.
  unfold FileStreaming.onWrite, FileStreaming.callback.
  destruct (merge_without_list (FileStreaming.promote s e) r (promote_current s e)) as [what ->].
  simpl. eauto.
Qed.

Lemma buffer_pushed (s : FileStreaming.t) (e : nat) (res : string) (emission : Emission.t)
    (buf : list Snapshot) (a : nat) (r : string) :
  FileStreaming.heap s !! e = Some emission ->
  FileStreaming.buffer
    (FileStreaming.set_heap s
       (<[e := Emission.set_list emission (<[res := buf]> (Emission._list emission))]>
          (FileStreaming.heap s))) a r
  = if decide (a = e /\ r = res) then buf else FileStreaming.buffer s a r.
Proof.
  intros He. unfold FileStreaming.buffer. cbn [FileStreaming.heap FileStreaming.set_heap].
  destruct (decide (a = e /\ r = res)) as [[-> ->]|Hne].
  - rewrite lookup_insert_eq. cbn [Emission._list Emission.set_list].
    now rewrite lookup_insert_eq.
  - destruct (decide (e = a)) as [<-|Ha].
    + rewrite lookup_insert_eq, He. cbn [Emission._list Emission.set_list].
      rewrite lookup_insert_ne; [reflexivity|]. intros <-. now apply Hne.
    + now rewrite lookup_insert_ne by exact Ha.
Qed.

(** X13. As written, a signal for an engine playlist that exists and parses
    buffers the snapshot and then fails: the listener pushes what [readList]
    returned, calls the session's callback, and the callback throws its
    TypeError at the first read of [.list].  The entry stays buffered, a
    current Emission is set, and no file has been written or deleted. *)
Theorem segmentWritten_buffers_then_throws href (s : FileStreaming.t) (e : nat) (res : string)
    (emission : Emission.t) (snapshot : Snapshot) (items : list Snapshot) :
  FileStreaming.heap s !! e = Some emission ->
  existsSync (FileStreaming.fs s)
    (Emission.listDir (Emission._dir emission) (Emission._timestamp emission) res) = true ->
  readList (FileStreaming.fs s)
    (Emission.listDir (Emission._dir emission) (Emission._timestamp emission) res)
  = Normal snapshot ->
  Emission._list emission !! res = Some items ->
  exists what s1,
    FileStreaming.segmentWritten href s e res = (s1, Throw (TypeError what))
    /\ FileStreaming.buffer s1 e res = items ++ [snapshot]
    /\ is_Some (FileStreaming._current s1)
    /\ FileStreaming.fs s1 = FileStreaming.fs s.
Proof.
  intros He Hex Hread Hitems.
  unfold FileStreaming.segmentWritten, Emission.on_change.
  rewrite He, Hex, Hread. cbn [bind]. rewrite Hitems.
  set (s0 := FileStreaming.set_heap s _).
  destruct (onWrite_result href s0 e res) as [Hfst [what Hsnd]].
  exists what, (FileStreaming.promote s0 e).
  split; [rewrite <- Hfst, <- Hsnd; now destruct (FileStreaming.onWrite href s0 e res)|].
  destruct (promote_fixed s0 e) as (Hfs & _ & _ & Hbuf).
  split; [|split; [apply promote_current | exact Hfs]].
  rewrite Hbuf. unfold s0. rewrite (buffer_pushed s e res emission _ e res He).
  destruct (decide (e = e /\ res = res)) as [_|Hne]; [reflexivity | now destruct Hne].
Qed.

Lemma segmentWritten_buffers_then_throws_witness :
  exists what s1,
    FileStreaming.segmentWritten sample_href
      (session_with 5 None None {[ 0%nat := sample_emission ]} sample_fs) 0 "720p"
    = (s1, Throw (TypeError what))
    /\ FileStreaming.buffer s1 0 "720p" = [] ++ [sample_snapshot]
    /\ is_Some (FileStreaming._current s1)
    /\ FileStreaming.fs s1
       = FileStreaming.fs (session_with 5 None None {[ 0%nat := sample_emission ]} sample_fs).
Proof.
  apply (segmentWritten_buffers_then_throws sample_href
           (session_with 5 None None {[ 0%nat := sample_emission ]} sample_fs) 0 "720p"
           sample_emission sample_snapshot []).
  - reflexivity.
  - vm_compute. reflexivity.
  - vm_compute. reflexivity.
  - vm_compute. reflexivity.
Defined.

(** X14. As written, no signal changes a file or takes an entry out of a
    buffer: after the listener has run, whatever it did, the file system is
    the one before, and every buffer of every Emission begins with what it
    held.  Nothing is trimmed and no live playlist is written. *)
Theorem segmentWritten_never_writes href (s : FileStreaming.t) (e : nat) (res : string) :
  let s1 := fst (FileStreaming.segmentWritten href s e res) in
  FileStreaming.fs s1 = FileStreaming.fs s
  /\ forall a r, exists more,
       FileStreaming.buffer s1 a r = FileStreaming.buffer s a r ++ more.
Proof.
  cbv zeta. unfold FileStreaming.segmentWritten.
  assert (Hsame : FileStreaming.fs s = FileStreaming.fs s
                  /\ forall a r, exists more,
                       FileStreaming.buffer s a r = FileStreaming.buffer s a r ++ more).
  { split; [reflexivity|]. intros a r. exists []. now rewrite app_nil_r. }
  destruct (FileStreaming.heap s !! e) as [emission|] eqn:He; [|exact Hsame].
  unfold Emission.on_change.
  destruct (existsSync _ _); [|exact Hsame].
  destruct (readList _ _) as [snapshot|err]; [|exact Hsame]. cbn [bind].
  destruct (Emission._list emission !! res) as [items|] eqn:Hitems; [|exact Hsame].
  set (s0 := FileStreaming.set_heap s _).
  destruct (onWrite_result href s0 e res) as [-> _].
  destruct (promote_fixed s0 e) as (Hfs & _ & _ & Hbuf).
  split; [exact Hfs|]. intros a r. rewrite Hbuf. unfold s0.
  rewrite (buffer_pushed s e res emission _ a r He).
  destruct (decide (a = e /\ r = res)) as [[-> ->]|_].
  - exists [snapshot]. now rewrite (buffer_lookup s e res emission items He Hitems).
  - exists []. now rewrite app_nil_r.
Qed.

Lemma stop_idem (e : Emission.t) : Emission.stop (Emission.stop e) = Emission.stop e.
Proof. unfold Emission.stop. destruct (Emission._process e) eqn:Hp; simpl; now rewrite ?Hp. Qed.

Lemma stop_fixed (e : Emission.t) :
  Emission._dir (Emission.stop e) = Emission._dir e
  /\ Emission._timestamp (Emission.stop e) = Emission._timestamp e.
Proof. unfold Emission.stop. now destruct (Emission._process e). Qed.

Lemma disposed_stop (e : Emission.t) (fs : FileSystem) :
  disposed (Emission.stop e) fs <-> disposed e fs.
Proof.
  unfold disposed. destruct (stop_fixed e) as [-> ->]. now rewrite stop_list.
Qed.

Lemma disposed_mono (e : Emission.t) (fs fs1 : FileSystem) :
  (forall p, files fs !! p = None -> files fs1 !! p = None) ->
  (forall p, p ∈ watched fs1 -> p ∈ watched fs) ->
  disposed e fs -> disposed e fs1.
Proof.
  intros Hf Hw H res items Hl. destruct (H res items Hl) as (H1 & H2 & H3).
  split; [now apply Hf|]. split; [intros Hin; now apply H2, Hw|].
  intros item Hin. now apply Hf, H3.
Qed.

Lemma stop_unfold (s : FileStreaming.t) :
  FileStreaming.stop s = stop_one (stop_one s (FileStreaming._last s)) (FileStreaming._current s).
Proof. reflexivity. Qed.

Lemma stop_one_spec (s : FileStreaming.t) (ref : option nat) :
  FileStreaming._last (stop_one s ref) = FileStreaming._last s
  /\ FileStreaming._current (stop_one s ref) = FileStreaming._current s
  /\ (forall p, files (FileStreaming.fs s) !! p = None ->
                files (FileStreaming.fs (stop_one s ref)) !! p = None)
  /\ (forall p, p ∈ watched (FileStreaming.fs (stop_one s ref)) -> p ∈ watched (FileStreaming.fs s))
  /\ (forall a, ref <> Some a -> FileStreaming.heap (stop_one s ref) !! a = FileStreaming.heap s !! a)
  /\ (forall a e, ref = Some a -> FileStreaming.heap s !! a = Some e ->
        FileStreaming.heap (stop_one s ref) !! a = Some (Emission.stop e)
        /\ disposed e (FileStreaming.fs (stop_one s ref))).
Proof.
  unfold stop_one. destruct ref as [a|]; [|repeat split; auto; discriminate].
  destruct (FileStreaming.heap s !! a) as [e|] eqn:He.
  - cbv zeta. cbn [FileStreaming._last FileStreaming._current FileStreaming.fs FileStreaming.heap
                    FileStreaming.set_fs FileStreaming.set_heap].
    destruct (disposeAll_fold (Emission.stop e) (FileStreaming.fs s)) as (Hd & Hm & Hw & _).
    split; [reflexivity|]. split; [reflexivity|]. split; [exact Hm|]. split; [exact Hw|].
    split.
    + intros a' Hne. apply lookup_insert_ne. congruence.
    + intros a' e' [= <-] He'. rewrite He in He'. injection He' as <-.
      split; [apply lookup_insert_eq|]. apply disposed_stop. exact Hd.
  - do 5 (split; [auto|]). intros a' e' [= <-] He'. congruence.
Qed.

(** X15. [FileStreaming.stop] stops the draining and the current Emission
    and disposes of all they buffer: their engines are killed, their engine
    playlists and buffered segment files are gone and unwatched.  It
    creates no file or watcher, touches no other Emission, and leaves
    [_last] and [_current] as they are: a session stopped during a handoff
    still holds its draining reference. *)
Theorem stop_stops_and_disposes (s : FileStreaming.t) :
  let s1 := FileStreaming.stop s in
  FileStreaming._last s1 = FileStreaming._last s
  /\ FileStreaming._current s1 = FileStreaming._current s
  /\ (forall a e,
        FileStreaming._last s = Some a \/ FileStreaming._current s = Some a ->
        FileStreaming.heap s !! a = Some e ->
        FileStreaming.heap s1 !! a = Some (Emission.stop e)
        /\ disposed e (FileStreaming.fs s1))
  /\ (forall a, FileStreaming._last s <> Some a -> FileStreaming._current s <> Some a ->
        FileStreaming.heap s1 !! a = FileStreaming.heap s !! a)
  /\ (forall p, files (FileStreaming.fs s) !! p = None -> files (FileStreaming.fs s1) !! p = None)
  /\ (forall p, p ∈ watched (FileStreaming.fs s1) -> p ∈ watched (FileStreaming.fs s)).
Proof.
  cbv zeta. rewrite stop_unfold.
  set (s0 := stop_one s (FileStreaming._last s)).
  destruct (stop_one_spec s (FileStreaming._last s)) as (Hl0 & Hc0 & Hf0 & Hw0 & Hh0 & Hd0).
  destruct (stop_one_spec s0 (FileStreaming._current s)) as (Hl1 & Hc1 & Hf1 & Hw1 & Hh1 & Hd1).
  fold s0 in Hl0, Hc0, Hf0, Hw0, Hh0, Hd0.
  split; [now rewrite Hl1|]. split; [now rewrite Hc1|].
  split; [|split; [|split]].
  - intros a e Href He.
    destruct (decide (FileStreaming._last s = Some a)) as [Hla|Hla].
    + destruct (Hd0 a e Hla He) as [Hs0 Hdis0].
      destruct (decide (FileStreaming._current s = Some a)) as [Hca|Hca].
      * destruct (Hd1 a (Emission.stop e) Hca Hs0) as [Hs1 Hdis1].
        rewrite stop_idem in Hs1. split; [exact Hs1|]. now apply disposed_stop.
      * rewrite (Hh1 a Hca). split; [exact Hs0|].
        now apply (disposed_mono e (FileStreaming.fs s0)).
    + destruct Href as [Hla'|Hca]; [contradiction|].
      rewrite <- (Hh0 a Hla) in He. apply (Hd1 a e Hca He).
  - intros a Hla Hca. now rewrite (Hh1 a Hca), (Hh0 a Hla).
  - intros p Hp. now apply Hf1, Hf0.
  - intros p Hp. now apply Hw0, Hw1.
Qed.

Lemma step_keeps_draining href (s : FileStreaming.t) (ev : Event) :
  is_Some (FileStreaming._last s) -> is_Some (FileStreaming._last (step href s ev)).
Proof.
  intros Hl. destruct ev as [input now|e res|]; cbn [step].
  - unfold FileStreaming.emit. destruct Hl as [l Hl]. rewrite Hl. simpl. rewrite Hl. eauto.
  - unfold FileStreaming.segmentWritten.
    destruct (FileStreaming.heap s !! e) as [emission|]; [|exact Hl].
    destruct (Emission.on_change _ _ _) as [[pushed|]|err]; try exact Hl.
    destruct (onWrite_result href
                (FileStreaming.set_heap s (<[e := pushed]> (FileStreaming.heap s))) e res)
      as [-> _].
    now apply promote_fixed.
  - rewrite stop_unfold.
    destruct (stop_one_spec (stop_one s (FileStreaming._last s)) (FileStreaming._current s))
      as (-> & _).
    destruct (stop_one_spec s (FileStreaming._last s)) as (-> & _). exact Hl.
Qed.

(** X16. As written, a handoff is never completed.  Once the session holds
    a draining Emission, no sequence of [emit] calls, engine signals and
    [stop] calls clears the reference (the only code that deletes it is
    behind the callback's failing read), so after any such sequence [emit]
    is still rejected with 'Transition in progress'. *)
Theorem once_draining_always_draining href (s : FileStreaming.t) (events : list Event)
    (input : string) (now : N) :
  is_Some (FileStreaming._last s) ->
  FileStreaming.emit (run href s events) input now
  = (run href s events, FileStreaming.EmitRejected "Transition in progress").
Proof.
  intros Hl.
  assert (H : is_Some (FileStreaming._last (run href s events))).
  { unfold run. revert s Hl. induction events as [|ev events IH]; intros s Hl; [exact Hl|].
    cbn [fold_left]. now apply IH, step_keeps_draining. }
  destruct H as [l H]. unfold FileStreaming.emit. now rewrite H.
Qed.

Lemma once_draining_always_draining_witness :
  FileStreaming.emit
    (run sample_href session_B [SegmentWritten 1 "720p"; Stop; Emit "again.mp4" 3000])
    "next.mp4" 4000
  = (run sample_href session_B [SegmentWritten 1 "720p"; Stop; Emit "again.mp4" 3000],
     FileStreaming.EmitRejected "Transition in progress").
Proof.
  apply (once_draining_always_draining sample_href session_B
           [SegmentWritten 1 "720p"; Stop; Emit "again.mp4" 3000] "next.mp4" 4000).
  exists 0%nat. reflexivity.
Defined.
(** ** Timestamps and the promotion *)

Lemma of_uint_acc_uval (d : Decimal.uint) (acc : positive) :
  N.pos (Pos.of_uint_acc d acc) = uval d (N.pos acc).
Proof. revert acc. induction d; intros acc; simpl; try reflexivity; now rewrite IHd. Qed.

Lemma of_uint_uval (d : Decimal.uint) : N.of_uint d = uval d 0.
Proof.
  unfold N.of_uint. induction d; simpl; try reflexivity; try apply of_uint_acc_uval.
  exact IHd.
Qed.

Lemma uval_split (d : Decimal.uint) (acc : N) :
  uval d acc = (acc * 10 ^ N.of_nat (Decimal.nb_digits d) + uval d 0)%N
  /\ (uval d 0 < 10 ^ N.of_nat (Decimal.nb_digits d))%N.
Proof.
  revert acc. induction d; intros acc; cbn [uval Decimal.nb_digits];
    try (rewrite Nat2N.inj_succ, N.pow_succ_r';
         destruct (IHd acc) as [_ Hlt];
         split; [rewrite (proj1 (IHd _)); rewrite (proj1 (IHd (_ + 10 * 0)%N)) || rewrite (proj1 (IHd (10 * 0)%N)); lia
                | rewrite (proj1 (IHd _)); lia]).
  simpl. split; lia.
Qed.

Lemma compare_numerals (d1 d2 : Decimal.uint) :
  Decimal.nb_digits d1 = Decimal.nb_digits d2 ->
  String.compare (NilEmpty.string_of_uint d1) (NilEmpty.string_of_uint d2)
  = N.compare (uval d1 0) (uval d2 0).
Proof.
  revert d2. induction d1; destruct d2; intros Hn; try discriminate Hn; try reflexivity;
    injection Hn as Hn; specialize (IHd1 _ Hn);
    cbn [NilEmpty.string_of_uint String.compare uval];
    match goal with
    | |- context [Ascii.compare ?a ?b] =>
        let c := eval vm_compute in (Ascii.compare a b) in
        change (Ascii.compare a b) with c
    end; cbv iota;
    match goal with
    | |- _ = (uval ?x ?a ?= uval ?y ?b)%N =>
        rewrite (proj1 (uval_split x a)), (proj1 (uval_split y b)), Hn;
        pose proof (proj2 (uval_split x 0)) as H1;
        pose proof (proj2 (uval_split y 0)) as H2;
        rewrite Hn in H1
    end;
    first [ rewrite IHd1;
            match goal with
            | |- (?v ?= ?w)%N = _ =>
                destruct (N.compare_spec v w); symmetry;
                [apply N.compare_eq_iff | apply N.compare_lt_iff | apply N.compare_gt_iff]; lia
            end
          | symmetry; apply N.compare_lt_iff; lia
          | symmetry; apply N.compare_gt_iff; lia ].
Qed.

Lemma length_string_of_uint (d : Decimal.uint) :
  String.length (NilEmpty.string_of_uint d) = Decimal.nb_digits d.
Proof. induction d; simpl; congruence. Qed.

(** On decimal numerals of the same length the order of strings is the
    order of numbers. *)
Lemma string_gt_numbers (a b : N) :
  String.length (N_to_string a) = String.length (N_to_string b) ->
  FileStreaming.string_gt (N_to_string a) (N_to_string b) = (b <? a)%N.
Proof.
  unfold FileStreaming.string_gt, N_to_string. rewrite !length_string_of_uint. intros Hn.
  rewrite (compare_numerals _ _ (eq_sym Hn)), <- !of_uint_uval, !DecimalN.Unsigned.of_to.
  unfold N.ltb. now destruct (b ?= a)%N.
Qed.

(** X22. The promotion compares creation times as strings.  Between the
    current Emission and another one whose timestamps are decimal numerals
    of the same length (as those of [Date.now()] are), the callback hands
    off exactly when the other was created strictly later: then it becomes
    current, the former current one becomes the draining one and is
    stopped, and no other Emission is touched; otherwise nothing changes. *)
Theorem promotion_follows_creation_time (s : FileStreaming.t) (e c : nat)
    (emission current : Emission.t) (te tc : N) :
  FileStreaming._current s = Some c ->
  FileStreaming.heap s !! e = Some emission ->
  FileStreaming.heap s !! c = Some current ->
  e <> c ->
  Emission._timestamp emission = N_to_string te ->
  Emission._timestamp current = N_to_string tc ->
  String.length (N_to_string te) = String.length (N_to_string tc) ->
  ((tc < te)%N ->
     FileStreaming._last (FileStreaming.promote s e) = Some c
     /\ FileStreaming._current (FileStreaming.promote s e) = Some e
     /\ FileStreaming.heap (FileStreaming.promote s e) !! c = Some (Emission.stop current)
     /\ forall a, a <> c ->
          FileStreaming.heap (FileStreaming.promote s e) !! a = FileStreaming.heap s !! a)
  /\ ((te <= tc)%N -> FileStreaming.promote s e = s).
Proof.
  intros Hc He Hcur Hne Hte Htc Hlen. unfold FileStreaming.promote.
  rewrite Hc, He, Hcur, Hte, Htc, (string_gt_numbers te tc Hlen).
  destruct (Nat.eqb_spec e c) as [Heq|_]; [contradiction|]. cbn [negb andb].
  destruct (N.ltb_spec tc te) as [Hlt|Hge]; split; try lia; intros _; [|reflexivity].
  cbn [FileStreaming._last FileStreaming._current FileStreaming.heap FileStreaming.set_heap
       FileStreaming.set_refs].
  split; [reflexivity|]. split; [reflexivity|]. split; [apply lookup_insert_eq|].
  intros a Ha. apply lookup_insert_ne. congruence.
Qed.

Lemma promotion_follows_creation_time_witness :
  ((1000 < 2000)%N ->
     FileStreaming._last (FileStreaming.promote session_P 1) = Some 0%nat
     /\ FileStreaming._current (FileStreaming.promote session_P 1) = Some 1%nat
     /\ FileStreaming.heap (FileStreaming.promote session_P 1) !! 0%nat
        = Some (Emission.stop (emission_with 1000 buffer_X))
     /\ forall a, a <> 0%nat ->
          FileStreaming.heap (FileStreaming.promote session_P 1) !! a
          = FileStreaming.heap session_P !! a)
  /\ ((2000 <= 1000)%N -> FileStreaming.promote session_P 1 = session_P).
Proof.
  apply (promotion_follows_creation_time session_P 1 0
           (emission_with 2000 buffer_Y) (emission_with 1000 buffer_X) 2000 1000).
  - reflexivity.
  - vm_compute. reflexivity.
  - vm_compute. reflexivity.
  - discriminate.
  - vm_compute. reflexivity.
  - vm_compute. reflexivity.
  - vm_compute. reflexivity.
Defined.

(** ** The promise of [start] *)

Lemma handle_settled (e : Emission.t) (ev : EngineEvent) :
  Emission.promise e <> Pending -> Emission.promise (handle e ev) = Emission.promise e.
Proof.
  intros Hp. destruct ev as [data|err|code]; cbn [handle];
    unfold Emission.on_stderr_data, Emission.on_error, Emission.on_close;
    try destruct (find _ _); cbn [Emission.promise Emission.set_promise];
    try reflexivity; destruct (Emission.promise e); try reflexivity; congruence.
Qed.

Lemma handlers_settled (events : list EngineEvent) (e : Emission.t) :
  Emission.promise e <> Pending ->
  Emission.promise (fold_left handle events e) = Emission.promise e.
Proof.
  revert e. induction events as [|ev events IH]; intros e Hp; [reflexivity|].
  cbn [fold_left]. rewrite IH; rewrite handle_settled; auto.
Qed.

Lemma handlers_quiet (events : list EngineEvent) (e : Emission.t) :
  Forall quiet events -> fold_left handle events e = e.
Proof.
  induction 1 as [|ev events Hq _ IH]; [reflexivity|].
  cbn [fold_left]. destruct ev as [data|err|code]; [|destruct Hq..].
  cbn [handle]. unfold Emission.on_stderr_data. cbn [quiet] in Hq. now rewrite Hq.
Qed.

(** X24. The promise of [start] is settled by the first event that settles
    it, and the exit code is not looked at.  After chunks of the diagnostic
    stream in which no phrase is found, the end of the engine process
    resolves the pending promise whatever its exit code, a spawn error
    rejects it with the error; and nothing that is reported afterwards (a
    phrase, an error, the end of the process) changes the outcome. *)
Theorem start_promise_settles_once (e : Emission.t) (before after : list EngineEvent)
    (ev : EngineEvent) :
  Emission.promise e = Pending ->
  Forall quiet before ->
  Emission.promise (fold_left handle (before ++ ev :: after) e)
  = match ev with
    | Close _ => Resolved
    | ProcessError err => Rejected err
    | StderrData data =>
        match find (fun error => includes (js_split data CRLF) error) Emission.knownErrors with
        | Some error => Rejected error
        | None => Emission.promise (fold_left handle after e)
        end
    end.
Proof.
  intros Hp Hq. rewrite fold_left_app, (handlers_quiet before e Hq). cbn [fold_left].
  destruct ev as [data|err|code]; cbn [handle].
  - unfold Emission.on_stderr_data. destruct (find _ _) as [error|]; [|reflexivity].
    rewrite handlers_settled; cbn [Emission.promise Emission.set_promise]; rewrite Hp;
      [reflexivity | discriminate].
  - rewrite handlers_settled; unfold Emission.on_error;
      cbn [Emission.promise Emission.set_promise]; rewrite Hp; [reflexivity | discriminate].
  - rewrite handlers_settled; unfold Emission.on_close;
      cbn [Emission.promise Emission.set_promise]; rewrite Hp; [reflexivity | discriminate].
Qed.

Lemma start_promise_settles_once_witness :
  Emission.promise
    (fold_left handle
       ([StderrData ("frame=   10 fps=0.0" +:+ CRLF)] ++ Close 1
          :: [StderrData "Invalid argument"; ProcessError "ENOENT"]) sample_emission)
  = Resolved.
Proof.
  apply (start_promise_settles_once sample_emission
           [StderrData ("frame=   10 fps=0.0" +:+ CRLF)]
           [StderrData "Invalid argument"; ProcessError "ENOENT"] (Close 1)).
  - reflexivity.
  - repeat constructor.
Defined.

(** ** The first revision: the diagnostic stream *)

Lemma find_includes (msg : string) (phrases : list string) (err : string) :
  In err phrases -> str_includes msg err = true ->
  exists reason, find (fun err => str_includes msg err) phrases = Some reason
                 /\ In reason phrases /\ str_includes msg reason = true.
Proof.
  induction phrases as [|x tl IH]; intros Hin Hs; [destruct Hin|].
  cbn [find]. destruct (str_includes msg x) eqn:Hx.
  - exists x. repeat split; [now left | exact Hx].
  - destruct Hin as [->|Hin]; [congruence|].
    destruct (IH Hin Hs) as (reason & Hf & Hr & Hsr). exists reason. repeat split; auto.
    now right.
Qed.

Lemma find_first {A} (f : A -> bool) (l : list A) (x : A) :
  find f l = Some x ->
  exists before after,
    l = before ++ x :: after /\ Forall (fun y => f y = false) before /\ f x = true.
Proof.
  induction l as [|y tl IH]; [discriminate|].
  cbn [find]. destruct (f y) eqn:Hy.
  - intros [= ->]. exists [], tl. repeat split; [constructor | exact Hy].
  - intros H. destruct (IH H) as (before & after & -> & Hb & Hx).
    exists (y :: before), after. repeat split; [now constructor | exact Hx].
Qed.

(** X25. In the first revision a fatal phrase stops the engine.  When a
    chunk of the diagnostic stream contains one of the phrases anywhere,
    the handler stops a running Emission (it is no longer running, its
    process is killed) and rejects the pending promise with the first
    phrase of its list that the chunk contains: no phrase listed before it
    occurs in the chunk.  No write announced by the chunk is remembered. *)
Theorem first_revision_stops_on_a_phrase (onData : bool) (e : EmissionV1.t)
    (l : EmissionV1.Listener) (msg err : string) :
  In err EmissionV1.knownErrors ->
  str_includes msg err = true ->
  let e1 := fst (EmissionV1.on_data onData (e, l) msg) in
  let l1 := snd (EmissionV1.on_data onData (e, l) msg) in
  exists before reason after,
    EmissionV1.knownErrors = before ++ reason :: after
    /\ Forall (fun phrase => str_includes msg phrase = false) before
    /\ str_includes msg reason = true
    /\ EmissionV1.promise l1 = settle (EmissionV1.promise l) (Rejected reason)
    /\ EmissionV1.running e1 = false
    /\ (EmissionV1.running e = true ->
        EmissionV1.process e1 = Some {| stdin_paused := true; killed := true |})
    /\ EmissionV1.writting l1 = false.
Proof.
  intros Hin Hs. cbv zeta. unfold EmissionV1.on_data.
  destruct (find_includes msg _ err Hin Hs) as (reason & Hf & _ & _). rewrite Hf.
  destruct (find_first _ _ _ Hf) as (before & after & Hlist & Hbefore & Hreason).
  exists before, reason, after.
  split; [exact Hlist|]. split; [exact Hbefore|]. split; [exact Hreason|].
  destruct (EmissionV1.writting l) eqn:Hw; cbn;
    (split; [reflexivity|]);
    unfold EmissionV1.stop; cbn; destruct (EmissionV1.running e) eqn:Hrun; cbn;
    repeat split; auto; discriminate.
Qed.

Lemma first_revision_stops_on_a_phrase_witness :
  let msg := "in.mp4: Invalid data found when processing input" +:+ LF
             +:+ "No such file or directory" in
  let e := fst (fst (EmissionV1.start (EmissionV1.new "in.mp4" "out" None None None
                                         "Video%05d" "Video"))) in
  let l := {| EmissionV1.next_index := 0; EmissionV1.writting := false;
              EmissionV1.promise := Pending; EmissionV1.notified := [] |} in
  let e1 := fst (EmissionV1.on_data true (e, l) msg) in
  let l1 := snd (EmissionV1.on_data true (e, l) msg) in
  exists before reason after,
    EmissionV1.knownErrors = before ++ reason :: after
    /\ Forall (fun phrase => str_includes msg phrase = false) before
    /\ str_includes msg reason = true
    /\ EmissionV1.promise l1 = settle (EmissionV1.promise l) (Rejected reason)
    /\ EmissionV1.running e1 = false
    /\ (EmissionV1.running e = true ->
        EmissionV1.process e1 = Some {| stdin_paused := true; killed := true |})
    /\ EmissionV1.writting l1 = false.
Proof.
  cbv zeta.
  apply (first_revision_stops_on_a_phrase true
           (fst (fst (EmissionV1.start (EmissionV1.new "in.mp4" "out" None None None
                                          "Video%05d" "Video"))))
           {| EmissionV1.next_index := 0; EmissionV1.writting := false;
              EmissionV1.promise := Pending; EmissionV1.notified := [] |}
           ("in.mp4: Invalid data found when processing input" +:+ LF
            +:+ "No such file or directory")
           "Invalid data found when processing input").
  - right. left. reflexivity.
  - reflexivity.
Defined.

Lemma seq_from (f : nat -> N) (n : nat) :
  map f (seq 0 (S n)) = f 0%nat :: map (fun k => f (S k)) (seq 0 n).
Proof. cbn [seq map]. f_equal. rewrite <- seq_shift, map_map. reflexivity. Qed.

Lemma on_data_harmless (onData : bool) (e : EmissionV1.t) (l : EmissionV1.Listener)
    (msg : string) :
  harmless msg ->
  EmissionV1.on_data onData (e, l) msg
  = if EmissionV1.writting l
    then (EmissionV1.set_index e (EmissionV1.next_index l),
          {| EmissionV1.next_index := EmissionV1.next_index l + 1;
             EmissionV1.writting := str_includes msg EmissionV1.writing_notice;
             EmissionV1.promise := EmissionV1.promise l;
             EmissionV1.notified :=
               if onData then EmissionV1.notified l ++ [EmissionV1.next_index l]
               else EmissionV1.notified l |})
    else (e, {| EmissionV1.next_index := EmissionV1.next_index l;
                EmissionV1.writting := str_includes msg EmissionV1.writing_notice;
                EmissionV1.promise := EmissionV1.promise l;
                EmissionV1.notified := EmissionV1.notified l |}).
Proof.
  unfold harmless, EmissionV1.on_data. intros H.
  destruct (EmissionV1.writting l); rewrite H; reflexivity.
Qed.

(** X26. The first revision tells its caller of every playlist write, in
    order.  Over chunks of the diagnostic stream that hold none of the
    phrases, the handler notifies once for every chunk that arrives after
    a chunk announcing a write ('.m3u8.tmp' for writing'), each time with
    [index] one more than the time before, counting from where it stood
    ([startNumber] after [start]); the promise and the engine are left as
    they are. *)
Theorem first_revision_counts_writes (onData : bool) (chunks : list string) :
  forall (e : EmissionV1.t) (l : EmissionV1.Listener),
  Forall harmless chunks ->
  let e1 := fst (fold_left (EmissionV1.on_data onData) chunks (e, l)) in
  let l1 := snd (fold_left (EmissionV1.on_data onData) chunks (e, l)) in
  let n := announced (EmissionV1.writting l) chunks in
  EmissionV1.next_index l1 = (EmissionV1.next_index l + N.of_nat n)%N
  /\ EmissionV1.notified l1
     = EmissionV1.notified l
       ++ (if onData
           then map (fun k => (EmissionV1.next_index l + N.of_nat k)%N) (seq 0 n)
           else [])
  /\ EmissionV1.index e1
     = (if Nat.eqb n 0 then EmissionV1.index e
        else Some (EmissionV1.next_index l + N.of_nat n - 1)%N)
  /\ EmissionV1.promise l1 = EmissionV1.promise l
  /\ EmissionV1.running e1 = EmissionV1.running e
  /\ EmissionV1.process e1 = EmissionV1.process e.
Proof.
  induction chunks as [|msg tl IH]; intros e l Hall; cbv zeta.
  - cbn [fold_left fst snd announced seq map]. rewrite N.add_0_r.
    repeat split; try congruence. destruct onData; now rewrite app_nil_r.
  - apply Forall_cons in Hall as [Hmsg Htl]. cbn [fold_left announced].
    rewrite (on_data_harmless onData e l msg Hmsg).
    destruct (EmissionV1.writting l) eqn:Hw.
    + specialize (IH (EmissionV1.set_index e (EmissionV1.next_index l))
                     {| EmissionV1.next_index := EmissionV1.next_index l + 1;
                        EmissionV1.writting := str_includes msg EmissionV1.writing_notice;
                        EmissionV1.promise := EmissionV1.promise l;
                        EmissionV1.notified :=
                          if onData then EmissionV1.notified l ++ [EmissionV1.next_index l]
                          else EmissionV1.notified l |} Htl).
      cbv zeta in IH. cbn [EmissionV1.next_index EmissionV1.writting EmissionV1.promise
                           EmissionV1.notified] in IH.
      destruct IH as (Hn & Hnot & Hidx & Hp & Hrun & Hproc).
      set (n := announced (str_includes msg EmissionV1.writing_notice) tl) in *.
      split; [rewrite Hn; lia|]. split.
      * rewrite Hnot. destruct onData; [|now rewrite app_nil_r].
        rewrite <- app_assoc. f_equal. change (1 + n)%nat with (S n). rewrite seq_from.
        cbn [app]. rewrite N.add_0_r. f_equal. apply map_ext. intros k. lia.
      * split; [|auto]. rewrite Hidx. cbn [Nat.eqb Nat.add]. destruct n as [|n']; cbn [Nat.eqb].
        -- cbn [EmissionV1.index EmissionV1.set_index]. f_equal. lia.
        -- f_equal. lia.
    + specialize (IH e {| EmissionV1.next_index := EmissionV1.next_index l;
                          EmissionV1.writting := str_includes msg EmissionV1.writing_notice;
                          EmissionV1.promise := EmissionV1.promise l;
                          EmissionV1.notified := EmissionV1.notified l |} Htl).
      cbv zeta in IH. cbn [EmissionV1.next_index EmissionV1.writting EmissionV1.promise
                           EmissionV1.notified] in IH.
      exact IH.
Qed.

Lemma first_revision_counts_writes_witness :
  let chunks := [ "Opening 'out/Video.m3u8.tmp' for writing"; "frame=  120";
                  "Opening 'out/Video.m3u8.tmp' for writing"; "frame=  240" ] in
  let e := fst (fst (EmissionV1.start (EmissionV1.new "in.mp4" "out" (Some 3%N) None None
                                         "Video%05d" "Video"))) in
  let l := {| EmissionV1.next_index := 3; EmissionV1.writting := false;
              EmissionV1.promise := Pending; EmissionV1.notified := [] |} in
  EmissionV1.next_index (snd (fold_left (EmissionV1.on_data true) chunks (e, l))) = (3 + N.of_nat 2)%N
  /\ EmissionV1.notified (snd (fold_left (EmissionV1.on_data true) chunks (e, l)))
     = [] ++ map (fun k => (3 + N.of_nat k)%N) (seq 0 2)
  /\ EmissionV1.index (fst (fold_left (EmissionV1.on_data true) chunks (e, l)))
     = Some (3 + N.of_nat 2 - 1)%N
  /\ EmissionV1.promise (snd (fold_left (EmissionV1.on_data true) chunks (e, l))) = Pending
  /\ EmissionV1.running (fst (fold_left (EmissionV1.on_data true) chunks (e, l))) = true
  /\ EmissionV1.process (fst (fold_left (EmissionV1.on_data true) chunks (e, l)))
     = Some {| stdin_paused := false; killed := false |}.
Proof.
  cbv zeta.
  apply (first_revision_counts_writes true
           [ "Opening 'out/Video.m3u8.tmp' for writing"; "frame=  120";
             "Opening 'out/Video.m3u8.tmp' for writing"; "frame=  240" ]
           (fst (fst (EmissionV1.start (EmissionV1.new "in.mp4" "out" (Some 3%N) None None
                                          "Video%05d" "Video"))))
           {| EmissionV1.next_index := 3; EmissionV1.writting := false;
              EmissionV1.promise := Pending; EmissionV1.notified := [] |}).
  repeat constructor.
Defined.

(** ** What the buffers hold *)

Lemma sound_new (fs : FileSystem) (dir input : string) (segmentTime : N) (listSize : Z)
    (resolutionMask now : N) :
  sound_buffers (snd (fst (Emission.start fs
                             (Emission.new dir input segmentTime listSize resolutionMask now)))).
Proof.
  destruct (start_watches_fresh fs dir input segmentTime listSize resolutionMask now)
    as (fs1 & e1 & -> & _ & _ & Hl & _).
  intros r buf H. cbn [fst snd] in H. rewrite Hl in H.
  apply (new_buffers dir input segmentTime listSize resolutionMask now r) in H as ->.
  constructor.
Qed.

Lemma sound_insert (e : Emission.t) (res : string) (buf : list Snapshot) :
  sound_buffers e -> Forall sound_snapshot buf ->
  sound_buffers (Emission.set_list e (<[res := buf]> (Emission._list e))).
Proof.
  intros He Hb r buf' H. cbn [Emission._list Emission.set_list] in H.
  destruct (decide (res = r)) as [<-|Hne].
  - rewrite lookup_insert_eq in H. now injection H as <-.
  - rewrite lookup_insert_ne in H by exact Hne. now apply (He r).
Qed.

(** X27. The buffers of an Emission hold what [readList] returns and
    nothing else.  If every buffered snapshot is sound (texts that print on
    lines of their own, an integer sequence, no discontinuity flag), this is
    still so after the listener has pushed a snapshot, after [dispose], after
    [stop] and after any chunk of the diagnostic stream. *)
Theorem buffers_stay_sound (e : Emission.t) :
  sound_buffers e ->
  (forall fs res e', Emission.on_change fs e res = Normal (Some e') -> sound_buffers e')
  /\ (forall fs res fs' e' emptied,
        Emission.dispose fs e res = Normal (fs', e', emptied) -> sound_buffers e')
  /\ sound_buffers (Emission.stop e)
  /\ (forall data, sound_buffers (Emission.on_stderr_data e data)).
Proof.
  intros He. split; [|split; [|split]].
  - intros fs res e'. unfold Emission.on_change.
    destruct (existsSync _ _); [|discriminate].
    destruct (readList fs _) as [snapshot|err] eqn:Hread; [|discriminate]. cbn [bind].
    destruct (Emission._list e !! res) as [items|] eqn:Hitems; [|discriminate].
    intros [= <-]. apply sound_insert; [exact He|].
    apply Forall_app. split; [now apply (He res)|].
    constructor; [|constructor]. exact (readList_shape _ _ _ Hread).
  - intros fs res fs' e' emptied. unfold Emission.dispose.
    destruct (Emission._list e !! res) as [[|item tl]|] eqn:Hl; [| |discriminate].
    + now intros [= _ <- _].
    + assert (Htl : Forall sound_snapshot tl).
      { specialize (He res _ Hl). now apply Forall_cons in He as [_ He]. }
      destruct tl; intros [= _ <- _]; apply sound_insert; auto.
  - intros r buf. rewrite stop_list. apply He.
  - intros data r buf. unfold Emission.on_stderr_data.
    destruct (find _ _); [|apply He]. cbn [Emission._list Emission.set_promise]. apply He.
Qed.

Lemma buffers_stay_sound_witness :
  (forall fs res e', Emission.on_change fs sample_emission res = Normal (Some e') ->
                     sound_buffers e')
  /\ (forall fs res fs' e' emptied,
        Emission.dispose fs sample_emission res = Normal (fs', e', emptied) -> sound_buffers e')
  /\ sound_buffers (Emission.stop sample_emission)
  /\ (forall data, sound_buffers (Emission.on_stderr_data sample_emission data)).
Proof.
  apply (buffers_stay_sound sample_emission).
  exact (sound_new {| files := ∅; watched := ∅ |} "out" "in.mp4" 5 5 4 1000).
Defined.

(** ** A handoff during a handoff *)

Lemma emit_accepted (s : FileStreaming.t) (input : string) (now : N) :
  FileStreaming._last s = None ->
  exists e fs1,
    FileStreaming.emit s input now
    = (FileStreaming.set_fs
         (FileStreaming.set_heap s
            (<[FileStreaming.fresh_address (FileStreaming.heap s) := e]> (FileStreaming.heap s)))
         fs1,
       FileStreaming.EmitStarted (FileStreaming.fresh_address (FileStreaming.heap s)))
    /\ FileStreaming.heap s !! FileStreaming.fresh_address (FileStreaming.heap s) = None
    /\ Emission._timestamp e = N_to_string now
    /\ files fs1 = files (FileStreaming.fs s)
    /\ forall p, p ∈ watched (FileStreaming.fs s) -> p ∈ watched fs1.
Proof.
  intros Hl. unfold FileStreaming.emit. rewrite Hl.
  set (e0 := Emission.new (FileStreaming._dir s) input (FileStreaming._segmentTime s)
               (FileStreaming._listSize s) (FileStreaming._resolutionMask s) now).
  assert (Hstart : Emission.start (FileStreaming.fs s) e0
                   = (map_fold (fun res (_ : list Snapshot) fs0 =>
                                  watchFile fs0 (Emission.listDir (Emission._dir e0)
                                                   (Emission._timestamp e0) res))
                               (FileStreaming.fs s) (Emission._list e0),
                      Emission.set_process e0 (Some {| stdin_paused := false; killed := false |}),
                      Pending)) by reflexivity.
  rewrite Hstart. eexists _, _. split; [reflexivity|].
  split; [apply (not_elem_of_dom (D := gset nat)); unfold FileStreaming.fresh_address;
          apply is_fresh|].
  split; [reflexivity|].
  destruct (start_fold (Emission._dir e0) (Emission._timestamp e0) (FileStreaming.fs s)
              (Emission._list e0)) as [Hf Hw].
  split; [exact Hf|]. intros p Hp. apply Hw. now left.
Qed.

Lemma promote_later (s : FileStreaming.t) (e c : nat) (emission current : Emission.t)
    (te tc : N) :
  FileStreaming._current s = Some c ->
  FileStreaming.heap s !! e = Some emission ->
  FileStreaming.heap s !! c = Some current ->
  e <> c ->
  Emission._timestamp emission = N_to_string te ->
  Emission._timestamp current = N_to_string tc ->
  String.length (N_to_string te) = String.length (N_to_string tc) ->
  (tc < te)%N ->
  FileStreaming.promote s e
  = FileStreaming.set_heap (FileStreaming.set_refs s (Some c) (Some e))
      (<[c := Emission.stop current]> (FileStreaming.heap s)).
Proof.
  intros Hc He Hcur Hne Hte Htc Hlen Hlt. unfold FileStreaming.promote.
  rewrite Hc, He, Hcur, Hte, Htc, (string_gt_numbers te tc Hlen).
  destruct (Nat.eqb_spec e c) as [Heq|_]; [contradiction|].
  destruct (N.ltb_spec tc te) as [_|Hge]; [reflexivity | lia].
Qed.

(** X29. A handoff that begins while another is under way leaks the first
    draining Emission.  While nothing is draining, [emit] is accepted twice;
    when the two new Emissions then deliver in turn, the first callback
    makes the current Emission the draining one, and the second replaces it
    there by the first new Emission.  The Emission replaced is stopped but
    named by neither reference any more, and nothing it buffered has been
    disposed of: every file is still on disk and every path still watched. *)
Theorem second_handoff_leaks_the_first href (s : FileStreaming.t) (a : nat) (ea : Emission.t)
    (t0 t1 t2 : N) (input1 input2 r1 r2 : string) :
  FileStreaming._last s = None ->
  FileStreaming._current s = Some a ->
  FileStreaming.heap s !! a = Some ea ->
  Emission._timestamp ea = N_to_string t0 ->
  (t0 < t1)%N -> (t1 < t2)%N ->
  String.length (N_to_string t1) = String.length (N_to_string t0) ->
  String.length (N_to_string t2) = String.length (N_to_string t1) ->
  let s1 := fst (FileStreaming.emit s input1 t1) in
  let b := FileStreaming.fresh_address (FileStreaming.heap s) in
  let s2 := fst (FileStreaming.emit s1 input2 t2) in
  let c := FileStreaming.fresh_address (FileStreaming.heap s1) in
  let s3 := fst (FileStreaming.onWrite href s2 b r1) in
  let s4 := fst (FileStreaming.onWrite href s3 c r2) in
  snd (FileStreaming.emit s input1 t1) = FileStreaming.EmitStarted b
  /\ snd (FileStreaming.emit s1 input2 t2) = FileStreaming.EmitStarted c
  /\ FileStreaming._last s3 = Some a /\ FileStreaming._current s3 = Some b
  /\ FileStreaming._last s4 = Some b /\ FileStreaming._current s4 = Some c
  /\ a <> b /\ a <> c
  /\ FileStreaming.heap s4 !! a = Some (Emission.stop ea)
  /\ files (FileStreaming.fs s4) = files (FileStreaming.fs s)
  /\ forall p, p ∈ watched (FileStreaming.fs s) -> p ∈ watched (FileStreaming.fs s4).
Proof.
  intros Hl Hc Ha Hta H01 H12 Hlen1 Hlen2. cbv zeta.
  destruct (emit_accepted s input1 t1 Hl) as (e1 & fs1 & Hemit1 & Hb & Ht1 & Hf1 & Hw1).
  rewrite Hemit1. cbn [fst snd].
  set (b := FileStreaming.fresh_address (FileStreaming.heap s)) in *.
  set (s1 := FileStreaming.set_fs (FileStreaming.set_heap s _) fs1).
  assert (Hl1 : FileStreaming._last s1 = None) by exact Hl.
  destruct (emit_accepted s1 input2 t2 Hl1) as (e2 & fs2 & Hemit2 & Hcfresh & Ht2 & Hf2 & Hw2).
  rewrite Hemit2. cbn [fst snd].
  set (c := FileStreaming.fresh_address (FileStreaming.heap s1)) in *.
  set (s2 := FileStreaming.set_fs (FileStreaming.set_heap s1 _) fs2).
  assert (Hab : a <> b) by congruence.
  assert (Hh1a : FileStreaming.heap s1 !! a = Some ea).
  { unfold s1. cbn. rewrite lookup_insert_ne by congruence. exact Ha. }
  assert (Hh1b : FileStreaming.heap s1 !! b = Some e1).
  { unfold s1. cbn. apply lookup_insert_eq. }
  assert (Hac : a <> c) by congruence.
  assert (Hbc : b <> c) by congruence.
  assert (Hh2a : FileStreaming.heap s2 !! a = Some ea).
  { unfold s2. cbn. rewrite lookup_insert_ne by congruence. exact Hh1a. }
  assert (Hh2b : FileStreaming.heap s2 !! b = Some e1).
  { unfold s2. cbn. rewrite lookup_insert_ne by congruence. exact Hh1b. }
  assert (Hh2c : FileStreaming.heap s2 !! c = Some e2).
  { unfold s2. cbn. apply lookup_insert_eq. }
  destruct (onWrite_result href s2 b r1) as [-> _].
  rewrite (promote_later s2 b a e1 ea t1 t0 Hc Hh2b Hh2a (not_eq_sym Hab) Ht1 Hta Hlen1 H01).
  set (s3 := FileStreaming.set_heap _ _).
  destruct (onWrite_result href s3 c r2) as [-> _].
  assert (Hh3c : FileStreaming.heap s3 !! c = Some e2).
  { unfold s3. cbn. rewrite lookup_insert_ne by congruence. exact Hh2c. }
  assert (Hh3b : FileStreaming.heap s3 !! b = Some e1).
  { unfold s3. cbn. rewrite lookup_insert_ne by congruence. exact Hh2b. }
  rewrite (promote_later s3 c b e2 e1 t2 t1 eq_refl Hh3c Hh3b (not_eq_sym Hbc) Ht2 Ht1 Hlen2 H12).
  cbn [FileStreaming._last FileStreaming._current FileStreaming.heap FileStreaming.fs
       FileStreaming.set_heap FileStreaming.set_refs FileStreaming.set_fs].
  do 6 (split; [reflexivity|]). split; [exact Hab|]. split; [exact Hac|].
  split; [unfold s3; cbn; rewrite lookup_insert_ne by congruence; apply lookup_insert_eq|].
  unfold s3, s2. cbn [FileStreaming.fs FileStreaming.set_heap FileStreaming.set_refs
                      FileStreaming.set_fs].
  split; [rewrite Hf2; exact Hf1|].
  intros p Hp. now apply Hw2, Hw1.
Qed.

Lemma second_handoff_leaks_the_first_witness :
  let s1 := fst (FileStreaming.emit session_A "b.mp4" 2000) in
  let b := FileStreaming.fresh_address (FileStreaming.heap session_A) in
  let s2 := fst (FileStreaming.emit s1 "c.mp4" 3000) in
  let c := FileStreaming.fresh_address (FileStreaming.heap s1) in
  let s3 := fst (FileStreaming.onWrite sample_href s2 b "720p") in
  let s4 := fst (FileStreaming.onWrite sample_href s3 c "720p") in
  snd (FileStreaming.emit session_A "b.mp4" 2000) = FileStreaming.EmitStarted b
  /\ snd (FileStreaming.emit s1 "c.mp4" 3000) = FileStreaming.EmitStarted c
  /\ FileStreaming._last s3 = Some 0%nat /\ FileStreaming._current s3 = Some b
  /\ FileStreaming._last s4 = Some b /\ FileStreaming._current s4 = Some c
  /\ 0%nat <> b /\ 0%nat <> c
  /\ FileStreaming.heap s4 !! 0%nat = Some (Emission.stop (emission_with 1000 buffer_A))
  /\ files (FileStreaming.fs s4) = files (FileStreaming.fs session_A)
  /\ forall p, p ∈ watched (FileStreaming.fs session_A) -> p ∈ watched (FileStreaming.fs s4).
Proof.
  cbv zeta.
  apply (second_handoff_leaks_the_first sample_href session_A 0 (emission_with 1000 buffer_A)
           1000 2000 3000 "b.mp4" "c.mp4" "720p" "720p").
  - reflexivity.
  - reflexivity.
  - vm_compute. reflexivity.
  - vm_compute. reflexivity.
  - reflexivity.
  - reflexivity.
  - vm_compute. reflexivity.
  - vm_compute. reflexivity.
Defined.

(** ** Runs of the session as written *)

Lemma unlink_if_exists_subseteq (f : FileSystem) (p : string) :
  files (if existsSync f p then unlinkSync f p else f) ⊆ files f.
Proof. destruct (existsSync f p); [apply delete_subseteq | reflexivity]. Qed.

Lemma disposeAll_subseteq (e : Emission.t) (fs : FileSystem) :
  files (Emission.disposeAll fs e) ⊆ files fs.
Proof.
  unfold Emission.disposeAll.
  apply (map_fold_weak_ind (fun fs1 (_ : gmap string (list Snapshot)) => files fs1 ⊆ files fs)).
  - reflexivity.
  - intros res items m fs0 _ IH.
    etransitivity; [apply unlink_if_exists_subseteq|]. cbn [files unwatchFile].
    etransitivity; [|exact IH]. clear IH.
    revert fs0. induction items as [|x items IHi]; intros fs0; [reflexivity|].
    cbn [fold_left]. etransitivity; [apply IHi|]. apply unlink_if_exists_subseteq.
Qed.

Lemma stop_one_frame (s : FileStreaming.t) (ref : option nat) :
  files (FileStreaming.fs (stop_one s ref)) ⊆ files (FileStreaming.fs s)
  /\ FileStreaming._dir (stop_one s ref) = FileStreaming._dir s
  /\ forall a r, FileStreaming.buffer (stop_one s ref) a r = FileStreaming.buffer s a r.
Proof.
  unfold stop_one. destruct ref as [a|]; [|now repeat split].
  destruct (FileStreaming.heap s !! a) as [e|] eqn:He; [|now repeat split].
  cbv zeta. split; [apply disposeAll_subseteq|]. split; [reflexivity|].
  intros a' r. unfold FileStreaming.buffer.
  cbn [FileStreaming.heap FileStreaming.set_fs FileStreaming.set_heap].
  destruct (decide (a = a')) as [<-|Hne].
  - now rewrite lookup_insert_eq, He, stop_list.
  - now rewrite lookup_insert_ne by exact Hne.
Qed.

Lemma signal_frame href (s : FileStreaming.t) (e : nat) (res : string) :
  let s1 := fst (FileStreaming.segmentWritten href s e res) in
  FileStreaming.fs s1 = FileStreaming.fs s
  /\ FileStreaming._dir s1 = FileStreaming._dir s
  /\ forall a r, exists more,
       FileStreaming.buffer s1 a r = FileStreaming.buffer s a r ++ more.
Proof.
  cbv zeta. unfold FileStreaming.segmentWritten.
  assert (Hsame : FileStreaming.fs s = FileStreaming.fs s
                  /\ FileStreaming._dir s = FileStreaming._dir s
                  /\ forall a r, exists more,
                       FileStreaming.buffer s a r = FileStreaming.buffer s a r ++ more).
  { split; [reflexivity|]. split; [reflexivity|]. intros a r. exists []. now rewrite app_nil_r. }
  destruct (FileStreaming.heap s !! e) as [emission|] eqn:He; [|exact Hsame].
  unfold Emission.on_change.
  destruct (existsSync _ _); [|exact Hsame].
  destruct (readList _ _) as [snapshot|err]; [|exact Hsame]. cbn [bind].
  destruct (Emission._list emission !! res) as [items|] eqn:Hitems; [|exact Hsame].
  set (s0 := FileStreaming.set_heap s _).
  destruct (onWrite_result href s0 e res) as [-> _].
  destruct (promote_fixed s0 e) as (Hfs & Hcfg & _ & Hbuf).
  split; [exact Hfs|]. split; [now injection Hcfg|].
  intros a r. rewrite Hbuf. unfold s0.
  rewrite (buffer_pushed s e res emission _ a r He).
  destruct (decide (a = e /\ r = res)) as [[-> ->]|_].
  - exists [snapshot]. now rewrite (buffer_lookup s e res emission items He Hitems).
  - exists []. now rewrite app_nil_r.
Qed.

Lemma emit_frame (s : FileStreaming.t) (input : string) (now : N) :
  let s1 := fst (FileStreaming.emit s input now) in
  files (FileStreaming.fs s1) = files (FileStreaming.fs s)
  /\ FileStreaming._dir s1 = FileStreaming._dir s
  /\ forall a r, exists more,
       FileStreaming.buffer s1 a r = FileStreaming.buffer s a r ++ more.
Proof.
  cbv zeta. destruct (FileStreaming._last s) as [l|] eqn:Hl.
  - unfold FileStreaming.emit. rewrite Hl. cbn [fst].
    repeat split. intros a r. exists []. now rewrite app_nil_r.
  - destruct (emit_accepted s input now Hl) as (e & fs1 & -> & Hfresh & _ & Hf & _).
    cbn [fst]. split; [exact Hf|]. split; [reflexivity|].
    intros a r. unfold FileStreaming.buffer.
    cbn [FileStreaming.heap FileStreaming.set_fs FileStreaming.set_heap].
    destruct (decide (FileStreaming.fresh_address (FileStreaming.heap s) = a)) as [<-|Hne].
    + rewrite lookup_insert_eq, Hfresh. eexists. reflexivity.
    + rewrite lookup_insert_ne by exact Hne. exists []. now rewrite app_nil_r.
Qed.

Lemma step_frame href (s : FileStreaming.t) (ev : Event) :
  files (FileStreaming.fs (step href s ev)) ⊆ files (FileStreaming.fs s)
  /\ FileStreaming._dir (step href s ev) = FileStreaming._dir s
  /\ forall a r, exists more,
       FileStreaming.buffer (step href s ev) a r = FileStreaming.buffer s a r ++ more.
Proof.
  destruct ev as [input now|e res|]; cbn [step].
  - destruct (emit_frame s input now) as (Hf & Hd & Hb). rewrite Hf. auto.
  - destruct (signal_frame href s e res) as (Hf & Hd & Hb). rewrite Hf. auto.
  - rewrite stop_unfold.
    destruct (stop_one_frame s (FileStreaming._last s)) as (Hf0 & Hd0 & Hb0).
    destruct (stop_one_frame (stop_one s (FileStreaming._last s)) (FileStreaming._current s))
      as (Hf1 & Hd1 & Hb1).
    split; [etransitivity; eassumption|]. split; [congruence|].
    intros a r. exists []. now rewrite app_nil_r, Hb1, Hb0.
Qed.

(** X31. As written, the session writes no file after its construction and
    trims no buffer.  Over any sequence of [emit] calls, segment-written
    signals and [stop] calls, every file on disk afterwards was on disk
    before with the same content ([stop] deletes, nothing creates), every
    buffer begins with what it held, and a live playlist that did not
    exist does not come to exist. *)
Theorem no_run_writes_or_trims href (s : FileStreaming.t) (events : list Event) :
  let s1 := run href s events in
  files (FileStreaming.fs s1) ⊆ files (FileStreaming.fs s)
  /\ (forall a r, exists more,
        FileStreaming.buffer s1 a r = FileStreaming.buffer s a r ++ more)
  /\ (forall r, files (FileStreaming.fs s) !! FileStreaming.fileDir s r = None ->
        files (FileStreaming.fs s1) !! FileStreaming.fileDir s1 r = None).
Proof.
  cbv zeta.
  assert (H : files (FileStreaming.fs (run href s events)) ⊆ files (FileStreaming.fs s)
              /\ FileStreaming._dir (run href s events) = FileStreaming._dir s
              /\ forall a r, exists more,
                   FileStreaming.buffer (run href s events) a r
                   = FileStreaming.buffer s a r ++ more).
  { unfold run. revert s. induction events as [|ev events IH]; intros s; cbn [fold_left].
    - split; [reflexivity|]. split; [reflexivity|]. intros a r. exists []. now rewrite app_nil_r.
    - destruct (IH (step href s ev)) as (Hf & Hd & Hb).
      destruct (step_frame href s ev) as (Hf0 & Hd0 & Hb0).
      split; [etransitivity; eassumption|]. split; [congruence|].
      intros a r. destruct (Hb a r) as [m1 ->]. destruct (Hb0 a r) as [m0 ->].
      exists (m0 ++ m1). now rewrite app_assoc. }
  destruct H as (Hf & Hd & Hb). split; [exact Hf|]. split; [exact Hb|].
  intros r Hr. unfold FileStreaming.fileDir in *. rewrite Hd.
  destruct (files (FileStreaming.fs (run href s events)) !! _) as [data|] eqn:E; [|reflexivity].
  apply (lookup_weaken _ _ _ _ E) in Hf. congruence.
Qed.

(** ** The window, the marker and the release, against the callback as written *)

(** C1. The live playlist is not rewritten and the window is not trimmed.
    At the first segment-written signal of a session of window 3 the
    listener ends in the TypeError of the callback, and the folder holds
    no 720p.m3u8.  By the fourth signal four entries are buffered for the
    window of 3: none has been removed, every segment file is on disk, and
    there is still no live playlist. *)
Theorem live_playlist_is_never_rewritten :
  let first := delivers (first_emit 3) 0 "1000" "720p" "5" "0" "5.000000" "720p_0000.ts" in
  let fourth := delivers (live_3 3) 0 "1000" "720p" "5" "3" "5.000000" "720p_0003.ts" in
  (exists what, snd first = Throw (TypeError what))
  /\ files (FileStreaming.fs (fst first)) !! FileStreaming.fileDir (fst first) "720p" = None
  /\ (exists what, snd fourth = Throw (TypeError what))
  /\ FileStreaming._listSize (fst fourth) = 3%Z
  /\ map sn_sequence (FileStreaming.buffer (fst fourth) 0 "720p") = [Num 0; Num 1; Num 2; Num 3]
  /\ dom (files (FileStreaming.fs (fst fourth)))
     = {[ "out/master.m3u8"; "out/1000_720p.m3u8"; "out/720p_0000.ts"; "out/720p_0001.ts";
          "out/720p_0002.ts"; "out/720p_0003.ts" ]}.
Proof.
  cbv zeta. split; [eexists; vm_compute; reflexivity|].
  split; [vm_compute; reflexivity|].
  split; [eexists; vm_compute; reflexivity|].
  repeat split; vm_compute; reflexivity.
Qed.





